(** * ibiparnaiba: the in-memory repository and the REST authorization layer

    A shallow embedding of [server/storage.ts] ([MemStorage]) and of the
    route handlers of [server/routes.ts] ([registerRoutes]), followed by the
    properties of the specification that concern them.

    Conventions of the embedding.
    - A JavaScript number is an integer ([Z]) or [NaN]; the 2^53 precision
      limit of doubles is not modelled.
    - A JavaScript object is the finite map of its own properties
      ([gmap string value]); property order is not modelled.
    - A JavaScript [Map<number, T>] is an association list in insertion
      order, since [Array.from(map.values())] and [find] depend on it.
    - [new Date()] is an explicit argument [now] of every function that
      reads the clock; [new Date(v).getTime()] for a stored value [v] is a
      parameter [date_ms] of the one function that uses it.
    - A string is the UTF-8 encoding of the JavaScript string. *)

From Stdlib Require Import ZArith String Ascii List Sorted Permutation Lia.
From stdpp Require Import base option list gmap strings sorting.

Set Warnings "-register-all".
Open Scope string_scope.
Open Scope list_scope.
Open Scope Z_scope.

(** ** JavaScript values *)

Inductive number :=
| NaN
| Num (z : Z).

Inductive value :=
| VUndefined
| VNull
| VBool (b : bool)
| VNum (n : Z)
| VStr (s : string)
| VDate (t : Z)
| VArr (items : list value)
| VObj (props : gmap string value).

Abbreviation obj := (gmap string value).

(** [o.f]: the property, or [undefined] when [o] has no such property. *)
Definition prop (o : obj) (f : string) : value :=
  default VUndefined (o !! f).

(** [v.f] for an arbitrary non-nullish value [v], for the property names
    [key] and [value] that the settings routes destructure: only a plain
    object can carry them (arrays, strings, numbers and booleans have no
    such property). *)
Definition get_prop (v : value) (f : string) : value :=
  match v with
  | VObj o => prop o f
  | _ => VUndefined
  end.

(** ToBoolean. *)
Definition truthy (v : value) : bool :=
  match v with
  | VUndefined | VNull => false
  | VBool b => b
  | VNum n => negb (n =? 0)
  | VStr s => negb (String.eqb s "")
  | VDate _ | VArr _ | VObj _ => true
  end.

(** [a === b] for two values that were obtained independently (a stored
    field against a field of the current request or of the session user).
    Primitives compare by value; objects compare by reference, and two
    independently parsed objects are never the same reference. *)
Definition strict_eq (a b : value) : bool :=
  match a, b with
  | VUndefined, VUndefined => true
  | VNull, VNull => true
  | VBool x, VBool y => Bool.eqb x y
  | VNum x, VNum y => x =? y
  | VStr x, VStr y => String.eqb x y
  | _, _ => false
  end.

(** A value used as a [Map<number, T>] key: a value that is not a number
    equals no key, exactly like [NaN]. *)
Definition as_number (v : value) : number :=
  match v with
  | VNum n => Num n
  | _ => NaN
  end.

(** ** parseInt *)

(** StrWhiteSpaceChar, the white space and line terminators that
    [parseInt] skips, by the bytes of their UTF-8 encoding: one byte for
    TAB, LF, VT, FF, CR and SP; two for U+00A0; three for U+1680,
    U+2000 to U+200A, U+2028, U+2029, U+202F, U+205F, U+3000 and U+FEFF. *)
Definition is_space (c : ascii) : bool :=
  let n := nat_of_ascii c in
  ((9 <=? n) && (n <=? 13))%nat || (n =? 32)%nat.

Definition is_space2 (c1 c2 : ascii) : bool :=
  ((nat_of_ascii c1 =? 194) && (nat_of_ascii c2 =? 160))%nat.

Definition is_space3 (c1 c2 c3 : ascii) : bool :=
  let a := nat_of_ascii c1 in
  let b := nat_of_ascii c2 in
  let c := nat_of_ascii c3 in
  ((a =? 225) && (b =? 154) && (c =? 128)
   || (a =? 226) && (b =? 128)
      && ((128 <=? c) && (c <=? 138) || (c =? 168) || (c =? 169) || (c =? 175))
   || (a =? 226) && (b =? 129) && (c =? 159)
   || (a =? 227) && (b =? 128) && (c =? 128)
   || (a =? 239) && (b =? 187) && (c =? 191))%nat.

Definition digit_val (c : ascii) : option Z :=
  let n := Z.of_nat (nat_of_ascii c) in
  if (48 <=? n) && (n <=? 57) then Some (n - 48)
  else if (97 <=? n) && (n <=? 122) then Some (n - 87)
  else if (65 <=? n) && (n <=? 90) then Some (n - 55)
  else None.

Definition digit_in (radix : Z) (c : ascii) : option Z :=
  match digit_val c with
  | Some d => if d <? radix then Some d else None
  | None => None
  end.

Fixpoint skip_space (s : string) : string :=
  match s with
  | String c1 s1 =>
      if is_space c1 then skip_space s1
      else
        match s1 with
        | String c2 s2 =>
            if is_space2 c1 c2 then skip_space s2
            else
              match s2 with
              | String c3 s3 => if is_space3 c1 c2 c3 then skip_space s3 else s
              | EmptyString => s
              end
        | EmptyString => s
        end
  | EmptyString => s
  end.

(** The longest prefix of digits of the radix, accumulated left to right;
    [None] when there is not a single digit. *)
Fixpoint digits (radix : Z) (acc : option Z) (s : string) : option Z :=
  match s with
  | String c s' =>
      match digit_in radix c with
      | Some d => digits radix (Some (default 0 acc * radix + d)) s'
      | None => acc
      end
  | EmptyString => acc
  end.

Definition strip_sign (s : string) : Z * string :=
  match s with
  | String "-" s' => (-1, s')
  | String "+" s' => (1, s')
  | _ => (1, s)
  end.

Definition strip_hex (s : string) : Z * string :=
  match s with
  | String "0" (String "x" s') => (16, s')
  | String "0" (String "X" s') => (16, s')
  | _ => (10, s)
  end.

(** [parseInt(s)] with no radix argument. *)
Definition parseInt (s : string) : number :=
  let '(sign, s1) := strip_sign (skip_space s) in
  let '(radix, s2) := strip_hex s1 in
  match digits radix None s2 with
  | Some n => Num (sign * n)
  | None => NaN
  end.

(** ** Arrays *)

(** [l.slice(0, end)]: a [NaN] end is 0, a negative end counts from the
    back of the array. *)
Definition slice_to {A} (end_ : number) (l : list A) : list A :=
  match end_ with
  | NaN => []
  | Num z =>
      if z <? 0 then take (Z.to_nat (Z.of_nat (length l) + z)) l
      else take (Z.to_nat z) l
  end.

(** [l.sort(cmp)]: the sort is stable; an element moves behind another one
    only when the comparator is positive ([NaN] counts as 0). *)
Definition goes_after (c : number) : bool :=
  match c with
  | Num z => 0 <? z
  | NaN => false
  end.

Fixpoint sort_insert {A} (cmp : A → A → number) (x : A) (l : list A) : list A :=
  match l with
  | [] => [x]
  | y :: l' => if goes_after (cmp x y) then y :: sort_insert cmp x l' else x :: l
  end.

Definition sort {A} (cmp : A → A → number) (l : list A) : list A :=
  foldr (sort_insert cmp) [] l.

(** [a - b] on numbers. *)
Definition num_sub (a b : number) : number :=
  match a, b with
  | Num x, Num y => Num (x - y)
  | _, _ => NaN
  end.

(** [a > b] on numbers: false as soon as one side is [NaN]. *)
Definition num_gt (a b : number) : bool :=
  match a, b with
  | Num x, Num y => y <? x
  | _, _ => false
  end.

(** ** Map<number, T> *)

Fixpoint map_get {V} (k : number) (m : list (Z * V)) : option V :=
  match m with
  | [] => None
  | (k', v) :: m' =>
      match k with
      | Num z => if z =? k' then Some v else map_get k m'
      | NaN => None
      end
  end.

(** [m.set(k, v)]: an existing key keeps its position. *)
Fixpoint map_set {V} (k : Z) (v : V) (m : list (Z * V)) : list (Z * V) :=
  match m with
  | [] => [(k, v)]
  | (k', v') :: m' =>
      if k =? k' then (k, v) :: m' else (k', v') :: map_set k v m'
  end.

Definition map_has {V} (k : number) (m : list (Z * V)) : bool :=
  match map_get k m with
  | Some _ => true
  | None => false
  end.

Definition is_key (k : number) (k' : Z) : bool :=
  match k with
  | Num z => z =? k'
  | NaN => false
  end.

(** [m.delete(k)]: whether the key was present, and the map without it. *)
Definition map_delete {V} (k : number) (m : list (Z * V)) : bool * list (Z * V) :=
  (map_has k m, List.filter (λ e, negb (is_key k e.1)) m).

Definition map_values {V} (m : list (Z * V)) : list V := map snd m.

(** ** MemStorage *)

Inductive owned := Event | Study | Post | ForumTopic | ForumReply.

Inductive kind := User | Owned (o : owned) | SiteSetting.

Coercion Owned : owned >-> kind.

#[global] Instance number_eq_dec : EqDecision number.
Proof. solve_decision. Defined.

#[global] Instance owned_eq_dec : EqDecision owned.
Proof. solve_decision. Defined.

#[global] Instance kind_eq_dec : EqDecision kind.
Proof. solve_decision. Defined.

(** One entity collection: its [Map] and its id counter. *)
Record Coll := mkColl {
  data : list (Z * obj);
  idCounter : Z
}.

Record MemStorage := mkStorage {
  users : Coll;
  events : Coll;
  studies : Coll;
  posts : Coll;
  forumTopics : Coll;
  forumReplies : Coll;
  siteSettings : Coll
}.

Definition coll (k : kind) (st : MemStorage) : Coll :=
  match k with
  | User => users st
  | Owned Event => events st
  | Owned Study => studies st
  | Owned Post => posts st
  | Owned ForumTopic => forumTopics st
  | Owned ForumReply => forumReplies st
  | SiteSetting => siteSettings st
  end.

Definition with_coll (k : kind) (c : Coll) (st : MemStorage) : MemStorage :=
  match k with
  | User => mkStorage c (events st) (studies st) (posts st) (forumTopics st) (forumReplies st) (siteSettings st)
  | Owned Event => mkStorage (users st) c (studies st) (posts st) (forumTopics st) (forumReplies st) (siteSettings st)
  | Owned Study => mkStorage (users st) (events st) c (posts st) (forumTopics st) (forumReplies st) (siteSettings st)
  | Owned Post => mkStorage (users st) (events st) (studies st) c (forumTopics st) (forumReplies st) (siteSettings st)
  | Owned ForumTopic => mkStorage (users st) (events st) (studies st) (posts st) c (forumReplies st) (siteSettings st)
  | Owned ForumReply => mkStorage (users st) (events st) (studies st) (posts st) (forumTopics st) c (siteSettings st)
  | SiteSetting => mkStorage (users st) (events st) (studies st) (posts st) (forumTopics st) (forumReplies st) c
  end.

(** The constructor: empty maps, every counter at 1. *)
Definition empty_coll : Coll := mkColl [] 1.

Definition new_MemStorage : MemStorage :=
  mkStorage empty_coll empty_coll empty_coll empty_coll empty_coll empty_coll empty_coll.

(** The timestamp property a record carries. *)
Definition stamp (k : kind) : string :=
  match k with
  | SiteSetting => "updatedAt"
  | _ => "createdAt"
  end.

(** [getUser], [getEvent], [getStudy], [getPost], [getForumTopic],
    [getForumReply]: [this.xData.get(id)]. *)
Definition get (k : kind) (id : number) (st : MemStorage) : option obj :=
  map_get id (data (coll k st)).

(** [createX(fields)]: [{ ...fields, id, createdAt: now }] (for a site
    setting, [updatedAt: now]) stored under the next id. *)
Definition create (k : kind) (now : Z) (fields : obj) (st : MemStorage)
  : obj * MemStorage :=
  let c := coll k st in
  let id := idCounter c in
  let record := <[stamp k := VDate now]> (<["id" := VNum id]> fields) in
  (record, with_coll k (mkColl (map_set id record (data c)) (id + 1)) st).

(** [{ ...existing, ...fields }], and for a site setting
    [{ ...existing, ...fields, updatedAt: now }]. *)
Definition merge (k : kind) (now : Z) (existing fields : obj) : obj :=
  match k with
  | SiteSetting => <["updatedAt" := VDate now]> (fields ∪ existing)
  | _ => fields ∪ existing
  end.

(** [updateX(id, fields)]. The clock is read by [updateSiteSetting] only. *)
Definition update (k : kind) (now : Z) (id : number) (fields : obj) (st : MemStorage)
  : option obj * MemStorage :=
  match id, get k id st with
  | Num z, Some existing =>
      let updated := merge k now existing fields in
      let c := coll k st in
      (Some updated, with_coll k (mkColl (map_set z updated (data c)) (idCounter c)) st)
  | _, _ => (None, st)
  end.

(** [deleteX(id)]: [this.xData.delete(id)]. *)
Definition delete_ (o : owned) (id : number) (st : MemStorage) : bool * MemStorage :=
  let c := coll o st in
  let '(found, m) := map_delete id (data c) in
  (found, with_coll o (mkColl m (idCounter c)) st).

(** [getAllX()]: [Array.from(this.xData.values())]. *)
Definition getAll (k : kind) (st : MemStorage) : list obj :=
  map_values (data (coll k st)).

(** The storage methods under their own names. The clock argument of
    [update] matters for a site setting only; the other update methods do
    not read the clock. *)
Definition getUser := get User.
Definition createUser := create User.
Definition updateUser := update User 0.
Definition getAllUsers := getAll User.

Definition getEvent := get Event.
Definition createEvent := create Event.
Definition updateEvent := update Event 0.
Definition deleteEvent := delete_ Event.
Definition getAllEvents := getAll Event.

Definition getStudy := get Study.
Definition createStudy := create Study.
Definition updateStudy := update Study 0.
Definition deleteStudy := delete_ Study.
Definition getAllStudies := getAll Study.

Definition getPost := get Post.
Definition createPost := create Post.
Definition updatePost := update Post 0.
Definition deletePost := delete_ Post.
Definition getAllPosts := getAll Post.

Definition getForumTopic := get ForumTopic.
Definition createForumTopic := create ForumTopic.
Definition updateForumTopic := update ForumTopic 0.
Definition deleteForumTopic := delete_ ForumTopic.
Definition getAllForumTopics := getAll ForumTopic.

Definition getForumReply := get ForumReply.
Definition createForumReply := create ForumReply.
Definition updateForumReply := update ForumReply 0.
Definition deleteForumReply := delete_ ForumReply.

Definition createSiteSetting := create SiteSetting.
Definition updateSiteSetting := update SiteSetting.
Definition getAllSiteSettings := getAll SiteSetting.

(** [getSiteSetting(key)]: the first setting, in insertion order, whose key
    is strictly equal to [key]. *)
Definition has_key (key : value) (setting : obj) : bool :=
  strict_eq (prop setting "key") key.

Definition getSiteSetting (key : value) (st : MemStorage) : option obj :=
  find (has_key key) (getAll SiteSetting st).

Section Dates.
(** [new Date(v).getTime()], [NaN] for an invalid date. *)
Variable date_ms : value → number.

Definition startTime_ms (event : obj) : number :=
  date_ms (prop event "startTime").

Definition is_upcoming (now : Z) (event : obj) : bool :=
  num_gt (startTime_ms event) (Num now).

Definition by_startTime (a b : obj) : number :=
  num_sub (startTime_ms a) (startTime_ms b).

(** [getUpcomingEvents(count = 5)]; [None] is an omitted or [undefined]
    argument. *)
Definition getUpcomingEvents (now : Z) (count : option number) (st : MemStorage)
  : list obj :=
  slice_to (default (Num 5) count)
    (sort by_startTime (List.filter (is_upcoming now) (getAllEvents st))).
End Dates.

(** ** Sequences of repository operations *)

Inductive storage_op :=
| Create (k : kind) (now : Z) (fields : obj)
| Update (k : kind) (now : Z) (id : number) (fields : obj)
| Delete (o : owned) (id : number).

(** One operation: the record a create returned (with the kind it was
    created in), and the next store. *)
Definition step (op : storage_op) (st : MemStorage) : option (kind * obj) * MemStorage :=
  match op with
  | Create k now fields => let '(r, st') := create k now fields st in (Some (k, r), st')
  | Update k now id fields => (None, (update k now id fields st).2)
  | Delete o id => (None, (delete_ o id st).2)
  end.

Fixpoint run (ops : list storage_op) (st : MemStorage) : list (kind * obj) * MemStorage :=
  match ops with
  | [] => ([], st)
  | op :: ops' =>
      let '(r, st1) := step op st in
      let '(rs, st2) := run ops' st1 in
      (match r with Some c => c :: rs | None => rs end, st2)
  end.

Definition kind_eqb (a b : kind) : bool :=
  match a, b with
  | User, User | SiteSetting, SiteSetting => true
  | Owned Event, Owned Event | Owned Study, Owned Study | Owned Post, Owned Post
  | Owned ForumTopic, Owned ForumTopic | Owned ForumReply, Owned ForumReply => true
  | _, _ => false
  end.

(** The [id] properties of the records that the creates of kind [k]
    returned, in the order of the calls. *)
Definition created_ids (k : kind) (rs : list (kind * obj)) : list value :=
  map (λ c, prop c.2 "id") (List.filter (λ c, kind_eqb k c.1) rs).

(** ** The route layer *)

(** Calls of repository methods, recorded in the order they are made. *)
Inductive call :=
| CallGet (k : kind) (id : number)
| CallCreate (k : kind) (fields : obj)
| CallUpdate (k : kind) (id : number) (fields : obj)
| CallDelete (o : owned) (id : number)
| CallGetAll (k : kind)
| CallGetUpcoming (count : option number)
| CallGetSiteSetting (key : value).

Definition is_mutation (c : call) : bool :=
  match c with
  | CallCreate _ _ | CallUpdate _ _ _ | CallDelete _ _ => true
  | _ => false
  end.

Record World := mkWorld {
  storage : MemStorage;
  calls : list call
}.

(** Handlers are state transformers over the world. *)
Definition M (A : Type) : Type := World → A * World.

#[global] Instance M_ret : MRet M := λ A a w, (a, w).
#[global] Instance M_bind : MBind M := λ A B f m w, let '(a, w') := m w in f a w'.

(** [await storage.method(...)]: runs the method on the store and records
    the call. *)
Definition invoke {A} (c : call) (method : MemStorage → A * MemStorage) : M A :=
  λ w, let '(a, st) := method (storage w) in (a, mkWorld st (calls w ++ [c])).

Definition query {A} (c : call) (method : MemStorage → A) : M A :=
  invoke c (λ st, (method st, st)).

Inductive json :=
| JMessage (message : string)
| JEntity (entity : option obj)
| JArray (entities : list obj)
| JCount (message : string) (count : nat).

Record response := mkResponse {
  status : Z;
  body : json
}.

Definition reply (code : Z) (b : json) : M response := mret (mkResponse code b).

(** The session user of a request ([req.user]); [None] when
    [req.isAuthenticated()] is false. *)
Definition isAuthenticated (user : option obj) (next : obj → M response) : M response :=
  match user with
  | Some u => next u
  | None => reply 401 (JMessage "Unauthorized")
  end.

Definition isAdmin (user : option obj) (next : obj → M response) : M response :=
  match user with
  | Some u =>
      if strict_eq (prop u "role") (VStr "admin") then next u
      else reply 403 (JMessage "Forbidden")
  | None => reply 403 (JMessage "Forbidden")
  end.

Definition owner_field (o : owned) : string :=
  match o with
  | Event => "createdBy"
  | _ => "authorId"
  end.

Definition label (o : owned) : string :=
  match o with
  | Event => "Event"
  | Study => "Study"
  | Post => "Post"
  | ForumTopic => "Forum topic"
  | ForumReply => "Forum reply"
  end.

Definition not_found (o : owned) : json := JMessage (label o +:+ " not found").
Definition deleted (o : owned) : json := JMessage (label o +:+ " deleted").

(** [existing.owner !== req.user.id && req.user.role !== "admin"] *)
Definition forbidden (o : owned) (existing u : obj) : bool :=
  negb (strict_eq (prop existing (owner_field o)) (prop u "id"))
  && negb (strict_eq (prop u "role") (VStr "admin")).

(** [PATCH /api/events/:id] and its four siblings; [req.body] goes to the
    repository as it is. ([now] is handed to [update], which has no use
    for it on these kinds.) *)
Definition patch_owned (o : owned) (user : option obj) (id_param : string)
    (req_body : obj) (now : Z) : M response :=
  isAuthenticated user (λ u,
    let id := parseInt id_param in
    existing ← query (CallGet o id) (get o id);
    match existing with
    | None => reply 404 (not_found o)
    | Some e =>
        if forbidden o e u then reply 403 (JMessage "Forbidden")
        else
          updated ← invoke (CallUpdate o id req_body) (update o now id req_body);
          reply 200 (JEntity updated)
    end).

(** [DELETE /api/events/:id] and its four siblings. *)
Definition delete_owned (o : owned) (user : option obj) (id_param : string)
  : M response :=
  isAuthenticated user (λ u,
    let id := parseInt id_param in
    existing ← query (CallGet o id) (get o id);
    match existing with
    | None => reply 404 (not_found o)
    | Some e =>
        if forbidden o e u then reply 403 (JMessage "Forbidden")
        else
          result ← invoke (CallDelete o id) (delete_ o id);
          if result : bool then reply 200 (deleted o) else reply 404 (not_found o)
    end).

(** [const { password, ...rest } = user] *)
Definition without_password (user : obj) : obj := delete "password" user.

(** [GET /api/users] *)
Definition get_users (user : option obj) : M response :=
  isAdmin user (λ _,
    all ← query (CallGetAll User) getAllUsers;
    reply 200 (JArray (map without_password all))).

(** [PATCH /api/users/:id] *)
Definition patch_user (user : option obj) (id_param : string) (req_body : obj)
    (now : Z) : M response :=
  isAdmin user (λ _,
    let userId := parseInt id_param in
    let updateData := without_password req_body in
    updated ← invoke (CallUpdate User userId updateData) (update User now userId updateData);
    match updated with
    | Some u => reply 200 (JEntity (Some (without_password u)))
    | None => reply 404 (JMessage "User not found")
    end).

(** [{ key, value, updatedBy: req.user.id }] *)
Definition setting_fields (key val : value) (u : obj) : obj :=
  <["key" := key]> (<["value" := val]> (<["updatedBy" := prop u "id"]> ∅)).

(** The upsert shared by the two settings routes: the response status and
    the record that is sent or pushed to [results]. *)
Definition upsert (u : obj) (key val : value) (now : Z) : M (Z * option obj) :=
  existing ← query (CallGetSiteSetting key) (getSiteSetting key);
  match existing with
  | Some e =>
      let id := as_number (prop e "id") in
      let fields := setting_fields key val u in
      updated ← invoke (CallUpdate SiteSetting id fields) (updateSiteSetting now id fields);
      mret (200, updated)
  | None =>
      let fields := setting_fields key val u in
      newSetting ← invoke (CallCreate SiteSetting fields) (createSiteSetting now fields);
      mret (201, Some newSetting)
  end.

(** [POST /api/site-settings] *)
Definition post_site_setting (user : option obj) (req_body : obj) (now : Z)
  : M response :=
  isAdmin user (λ u,
    let key := prop req_body "key" in
    let val := prop req_body "value" in
    if negb (truthy key) then reply 400 (JMessage "Key is required")
    else
      r ← upsert u key val now;
      reply r.1 (JEntity r.2)).

(** The loop of [POST /api/site-settings/batch]. Destructuring a [null]
    item throws a TypeError, which the handler's [catch] turns into a 500;
    what was stored before stays stored. [clock i] is the clock reading
    while item [i] is processed. *)
Fixpoint batch_loop (u : obj) (clock : nat → Z) (i : nat) (items : list value)
    (results : list (option obj)) : M response :=
  match items with
  | [] => reply 200 (JCount "Settings updated" (length results))
  | item :: rest =>
      match item with
      | VNull | VUndefined => reply 500 (JMessage "Error updating site settings")
      | _ =>
          let key := get_prop item "key" in
          let val := get_prop item "value" in
          if negb (truthy key) then batch_loop u clock (S i) rest results
          else
            r ← upsert u key val (clock i);
            batch_loop u clock (S i) rest (results ++ [r.2])
      end
  end.

(** [POST /api/site-settings/batch] *)
Definition post_site_settings_batch (user : option obj) (req_body : value)
    (clock : nat → Z) : M response :=
  isAdmin user (λ u,
    match req_body with
    | VArr items => batch_loop u clock 0 items []
    | _ => reply 400 (JMessage "Request body must be an array")
    end).

Section UpcomingRoute.
Variable date_ms : value → number.

(** [GET /api/events/upcoming]; [count_param] is [req.query.count]. *)
Definition get_upcoming (count_param : option string) (now : Z) : M response :=
  let count :=
    match count_param with
    | Some s => if truthy (VStr s) then Some (parseInt s) else None
    | None => None
    end in
  upcoming ← query (CallGetUpcoming count) (getUpcomingEvents date_ms now count);
  reply 200 (JArray upcoming).
End UpcomingRoute.

(** Requests to the two settings routes, and a server handling a sequence
    of them. *)
Inductive settings_request :=
| PostSetting (user : option obj) (req_body : obj) (now : Z)
| PostBatch (user : option obj) (req_body : value) (clock : nat → Z).

Definition serve (r : settings_request) : M response :=
  match r with
  | PostSetting user b now => post_site_setting user b now
  | PostBatch user b clock => post_site_settings_batch user b clock
  end.

Fixpoint serve_all (rs : list settings_request) (w : World) : World :=
  match rs with
  | [] => w
  | r :: rs' => serve_all rs' (serve r w).2
  end.

Definition new_World : World := mkWorld new_MemStorage [].

(** The settings whose key is strictly equal to [key]. *)
Definition settings_with_key (key : value) (st : MemStorage) : list obj :=
  List.filter (has_key key) (getAll SiteSetting st).

(** The number of creates of kind [k] in a sequence of operations. *)
Definition is_create_of (k : kind) (op : storage_op) : bool :=
  match op with
  | Create k' _ _ => kind_eqb k k'
  | _ => false
  end.

Definition creates (k : kind) (ops : list storage_op) : nat :=
  length (List.filter (is_create_of k) ops).

(** The words of the specification about upcoming events, written on the
    records themselves: the events held by the store, the start time of an
    event (its [startTime] property read as a date), the events that start
    strictly after [now], and the order of two events by start time. *)
Definition stored_events (st : MemStorage) : list obj := map snd (data (events st)).

Definition starts_at (date_ms : value → number) (e : obj) (t : Z) : Prop :=
  date_ms (prop e "startTime") = Num t.

Definition starts_after (date_ms : value → number) (now : Z) (e : obj) : bool :=
  match date_ms (prop e "startTime") with
  | Num t => now <? t
  | NaN => false
  end.

Definition upcoming (date_ms : value → number) (now : Z) (st : MemStorage) : list obj :=
  List.filter (starts_after date_ms now) (stored_events st).

Definition time_le (date_ms : value → number) (a b : obj) : Prop :=
  ∃ ta tb, starts_at date_ms a ta ∧ starts_at date_ms b tb ∧ ta ≤ tb.

(** Two stores whose users differ at most in their [password] property. *)
Definition same_but_password (a b : Z * obj) : Prop :=
  a.1 = b.1 ∧ without_password a.2 = without_password b.2.

Definition users_same_but_passwords (st1 st2 : MemStorage) : Prop :=
  Forall2 same_but_password (data (users st1)) (data (users st2)).

(** The user objects carried by a response body. *)
Definition body_users (b : json) : list obj :=
  match b with
  | JArray l => l
  | JEntity (Some x) => [x]
  | _ => []
  end.

(** ** Sample data *)

Definition sample_date (v : value) : number :=
  match v with
  | VDate t => Num t
  | VNum n => Num n
  | _ => NaN
  end.

Definition admin1 : obj :=
  {[ "id" := VNum 1; "username" := VStr "admin"; "password" := VStr "hash1";
     "role" := VStr "admin" ]}.

Definition member7 : obj :=
  {[ "id" := VNum 7; "username" := VStr "ana"; "password" := VStr "hash7";
     "role" := VStr "member" ]}.

Definition member8 : obj :=
  {[ "id" := VNum 8; "username" := VStr "rui"; "password" := VStr "hash8";
     "role" := VStr "member" ]}.

Definition service (start : Z) : obj :=
  {[ "title" := VStr "Service"; "eventType" := VStr "service";
     "startTime" := VDate start; "endTime" := VDate (start + 3600);
     "location" := VStr "Hall"; "createdBy" := VNum 7 ]}.

(** A store holding one event, created by user 7 under id 1. *)
Definition one_event : MemStorage := (createEvent 1000 (service 90000) new_MemStorage).2.

(** A store with four events, one of them in the past of [now = 10000]. *)
Definition four_events : MemStorage :=
  (run [Create Event 0 (service 13600); Create Event 0 (service 20800);
        Create Event 0 (service 6400); Create Event 0 (service 17200)]
     new_MemStorage).2.

(** A calendar in which the end times are in another order than the
    start times, and in which an event that has already started is still
    running at [now = 10000]. *)
Definition lasting (start finish : Z) : obj :=
  <["endTime" := VDate finish]> (service start).

Definition calendar : MemStorage :=
  (run [Create Event 0 (lasting 13600 50000); Create Event 0 (lasting 20800 21000);
        Create Event 0 (lasting 6400 30000); Create Event 0 (lasting 17200 40000);
        Create Event 0 (lasting 10000 60000)]
     new_MemStorage).2.

(** White space beyond ASCII: a no-break space, an ideographic space and a
    byte order mark. *)
Definition bytes (l : list nat) (rest : string) : string :=
  foldr (λ n s, String (ascii_of_nat n) s) rest l.

Definition nbsp : string → string := bytes [194; 160]%nat.
Definition ideographic_space : string → string := bytes [227; 128; 128]%nat.
Definition byte_order_mark : string → string := bytes [239; 187; 191]%nat.

(** A store with two users. *)
Definition two_users (pw1 pw7 : string) : MemStorage :=
  (run [Create User 0 (<["password" := VStr pw1]> admin1);
        Create User 0 (<["password" := VStr pw7]> member7)] new_MemStorage).2.

(** A body that names the owner field and the id. *)
Definition takeover : obj := {[ "createdBy" := VNum 8; "id" := VNum 99 ]}.

Definition setting_body (key val : string) : obj :=
  {[ "key" := VStr key; "value" := VStr val ]}.

Definition setting_item (key val : string) : value := VObj (setting_body key val).

Definition no_clock : nat → Z := λ _, 0.

(** The setting stored by admin 1 for [siteName] with value A at time 10,
    in an empty store. *)
Definition site_name_A : obj :=
  <["updatedAt" := VDate 10]>
    (<["id" := VNum 1]> (setting_fields (VStr "siteName") (VStr "A") admin1)).

(** The words of the specification about a count that is not numeric,
    written on the text itself. [StrWhiteSpaceChar] lists the white space
    of the language, character by character. *)
Definition StrWhiteSpaceChar : list string :=
  map (λ l, bytes l "")
    [[9]; [10]; [11]; [12]; [13]; [32]; [194; 160]; [225; 154; 128];
     [226; 128; 128]; [226; 128; 129]; [226; 128; 130]; [226; 128; 131];
     [226; 128; 132]; [226; 128; 133]; [226; 128; 134]; [226; 128; 135];
     [226; 128; 136]; [226; 128; 137]; [226; 128; 138]; [226; 128; 168];
     [226; 128; 169]; [226; 128; 175]; [226; 129; 159]; [227; 128; 128];
     [239; 187; 191]]%nat.

Definition signs : list string := ["+"; "-"].

Definition decimal_digits : list string :=
  ["0"; "1"; "2"; "3"; "4"; "5"; "6"; "7"; "8"; "9"].

Definition hex_digits : list string :=
  decimal_digits ++ ["a"; "b"; "c"; "d"; "e"; "f"; "A"; "B"; "C"; "D"; "E"; "F"].

Definition hex_prefixes : list string := ["0x"; "0X"].

Fixpoint starts_with (w s : string) : bool :=
  match w with
  | EmptyString => true
  | String a w' =>
      match s with
      | String b s' => Ascii.eqb a b && starts_with w' s'
      | EmptyString => false
      end
  end.

(** [s] begins with one of the texts of [l]. *)
Definition begins_with (l : list string) (s : string) : bool :=
  existsb (λ w, starts_with w s) l.

(** A text does not begin with a number: its first character is no
    decimal digit, or it consists of a hexadecimal prefix that no
    hexadecimal digit follows. *)
Inductive no_number : string → Prop :=
| no_decimal_digit s : begins_with decimal_digits s = false → no_number s
| no_hex_digit p s :
    p ∈ hex_prefixes → begins_with hex_digits s = false → no_number (p ++ s).

(** A text is not numeric when, after its leading white space and at most
    one sign, it does not go on with a number. *)
Inductive non_numeric : string → Prop :=
| non_numeric_space w s :
    w ∈ StrWhiteSpaceChar → non_numeric s → non_numeric (w ++ s)
| non_numeric_signed sign s :
    sign ∈ signs → no_number s → non_numeric (sign ++ s)
| non_numeric_plain s :
    begins_with (StrWhiteSpaceChar ++ signs) s = false → no_number s →
    non_numeric s.

(** The words of the specification about setting keys, written on the
    records themselves. Two keys are the same key when they are the same
    text (or the same number, boolean, [null] or [undefined]): these are
    the values that the language compares by what they hold. An array or
    an object sent as a key is no text; it is compared by reference, and
    it is the same as no key that came with another request. *)
Definition primitive (v : value) : Prop :=
  match v with
  | VUndefined | VNull | VBool _ | VNum _ | VStr _ => True
  | VDate _ | VArr _ | VObj _ => False
  end.

Definition same_key (a b : value) : Prop := primitive a ∧ a = b.

(** No two settings of the list hold the same key. *)
Definition keys_unique (settings : list obj) : Prop :=
  ∀ i j s1 s2,
    settings !! i = Some s1 → settings !! j = Some s2 →
    same_key (prop s1 "key") (prop s2 "key") → i = j.

(** The invariant of the settings collection: map keys are distinct and
    below the counter, every record carries its map key as [id], and no
    key is held by two records. *)
Definition settings_ok (st : MemStorage) : Prop :=
  let m := data (siteSettings st) in
  NoDup m.*1
  ∧ (∀ i, i ∈ m.*1 → i < idCounter (siteSettings st))
  ∧ (∀ i s, (i, s) ∈ m → prop s "id" = VNum i)
  ∧ (∀ key, (length (settings_with_key key st) ≤ 1)%nat).

(** The items of a batch that carry a key. *)
Definition has_truthy_key (item : value) : bool := truthy (get_prop item "key").

Definition keyed (items : list value) : list value :=
  List.filter has_truthy_key items.

Definition nullish (v : value) : bool :=
  match v with
  | VNull | VUndefined => true
  | _ => false
  end.

(** [c] is the repository mutation that upserts [item] on behalf of [u]. *)
Definition upsert_call_of (u : obj) (item : value) (c : call) : Prop :=
  let fields := setting_fields (get_prop item "key") (get_prop item "value") u in
  c = CallCreate SiteSetting fields ∨ ∃ id, c = CallUpdate SiteSetting id fields.

(** ** The remaining repository methods *)

From stdpp Require pretty.

(** [getUserByUsername(username)]: the first user, in insertion order,
    whose username is strictly equal to [username]. *)
Definition has_username (username : string) (user : obj) : bool :=
  strict_eq (prop user "username") (VStr username).

Definition getUserByUsername (username : string) (st : MemStorage) : option obj :=
  find (has_username username) (getAllUsers st).

(** [v === n] for a stored value and a number obtained from [parseInt]:
    false for [NaN] and for a value that is not a number. *)
Definition num_strict_eq (v : value) (n : number) : bool :=
  match v, n with
  | VNum a, Num b => a =? b
  | _, _ => false
  end.

(** [getForumRepliesByTopic(topicId)] *)
Definition in_topic (topicId : number) (reply : obj) : bool :=
  num_strict_eq (prop reply "topicId") topicId.

Definition getForumRepliesByTopic (topicId : number) (st : MemStorage) : list obj :=
  List.filter (in_topic topicId) (getAll ForumReply st).

(** The keys of a collection are distinct, positive and below its
    counter. *)
Definition coll_ok (c : Coll) : Prop :=
  0 < idCounter c ∧ NoDup (data c).*1 ∧ ∀ i, i ∈ (data c).*1 → 0 < i < idCounter c.

Definition keys_ok (st : MemStorage) : Prop := ∀ k, coll_ok (coll k st).

(** ** The remaining routes *)

(** The four kinds that have a list route and a route by id. *)
Inductive readable := REvent | RStudy | RPost | RForumTopic.

Definition readable_owned (r : readable) : owned :=
  match r with
  | REvent => Event
  | RStudy => Study
  | RPost => Post
  | RForumTopic => ForumTopic
  end.

(** [GET /api/events], [/api/studies], [/api/posts], [/api/forum/topics] *)
Definition get_list (r : readable) : M response :=
  all ← query (CallGetAll (readable_owned r)) (getAll (readable_owned r));
  reply 200 (JArray all).

(** [GET /api/events/:id] and its three siblings *)
Definition get_by_id (r : readable) (id_param : string) : M response :=
  let id := parseInt id_param in
  found ← query (CallGet (readable_owned r) id) (get (readable_owned r) id);
  match found with
  | Some e => reply 200 (JEntity (Some e))
  | None => reply 404 (not_found (readable_owned r))
  end.

(** [GET /api/forum/topics/:topicId/replies]; the call is recorded as the
    read of the replies collection that the method performs. *)
Definition get_replies (topicId_param : string) : M response :=
  let topicId := parseInt topicId_param in
  replies ← query (CallGetAll ForumReply) (getForumRepliesByTopic topicId);
  reply 200 (JArray replies).

(** [GET /api/site-settings] *)
Definition get_site_settings : M response :=
  settings ← query (CallGetAll SiteSetting) getAllSiteSettings;
  reply 200 (JArray settings).

(** [GET /api/site-settings/:key] *)
Definition get_site_setting (key : string) : M response :=
  setting ← query (CallGetSiteSetting (VStr key)) (getSiteSetting (VStr key));
  match setting with
  | Some s => reply 200 (JEntity (Some s))
  | None => reply 404 (JMessage "Setting not found")
  end.

Definition noun (o : owned) : string :=
  match o with
  | Event => "event"
  | Study => "study"
  | Post => "post"
  | ForumTopic => "forum topic"
  | ForumReply => "forum reply"
  end.

(** [{ message: "Invalid ... data", errors: error.errors }] *)
Definition invalid (o : owned) (errors : value) : json :=
  JEntity (Some {[ "message" := VStr ("Invalid " +:+ noun o +:+ " data");
                   "errors" := errors ]}).

(** [POST /api/upload]: a made-up URL built from [Date.now()]. *)
Definition post_upload (user : option obj) (now : Z) : M response :=
  isAuthenticated user (λ _,
    reply 200 (JEntity (Some
      {[ "url" := VStr ("https://exemplo.com/uploads/" +:+ pretty.pretty now +:+ ".jpg");
         "message" := VStr "Arquivo enviado com sucesso" ]}))).

Definition media (id : Z) (url title type : string) : obj :=
  {[ "id" := VNum id; "url" := VStr url; "title" := VStr title; "type" := VStr type ]}.

(** [GET /api/media] *)
Definition get_media (user : option obj) : M response :=
  isAuthenticated user (λ _,
    reply 200 (JArray
      [media 1 "https://exemplo.com/uploads/1.jpg" "Imagem 1" "image";
       media 2 "https://exemplo.com/uploads/2.jpg" "Imagem 2" "image";
       media 3 "https://exemplo.com/uploads/3.pdf" "Documento 1" "document"])).

(** The requests the server answers. *)
Inductive request :=
| GetList (r : readable)
| GetUpcoming (count_param : option string) (now : Z)
| GetById (r : readable) (id_param : string)
| GetReplies (topicId_param : string)
| GetSiteSettings
| GetSiteSettingByKey (key : string)
| PostOwned (o : owned) (req_body : obj) (now : Z)
| PatchOwned (o : owned) (id_param : string) (req_body : obj) (now : Z)
| DeleteOwned (o : owned) (id_param : string)
| PostUpload (now : Z)
| GetMedia
| GetUsers
| PatchUser (id_param : string) (req_body : obj) (now : Z)
| PostSiteSetting (req_body : obj) (now : Z)
| PostSiteSettingsBatch (req_body : value) (clock : nat → Z).

(** The middleware in front of a route. *)
Inductive gate := Open | Authenticated | Admin.

Definition gate_of (r : request) : gate :=
  match r with
  | GetList _ | GetUpcoming _ _ | GetById _ _ | GetReplies _
  | GetSiteSettings | GetSiteSettingByKey _ => Open
  | PostOwned _ _ _ | PatchOwned _ _ _ _ | DeleteOwned _ _ | PostUpload _ | GetMedia =>
      Authenticated
  | GetUsers | PatchUser _ _ _ | PostSiteSetting _ _ | PostSiteSettingsBatch _ _ => Admin
  end.

Section Server.
(** [insertXSchema.parse(req.body)]: the parsed data, or the [errors] of
    the [ZodError] it throws. *)
Variable parse : owned → obj → obj + value.
Variable date_ms : value → number.

(** [POST /api/events] and its four siblings *)
Definition post_owned (o : owned) (user : option obj) (req_body : obj) (now : Z)
  : M response :=
  isAuthenticated user (λ _,
    match parse o req_body with
    | inl entityData =>
        newEntity ← invoke (CallCreate o entityData) (create o now entityData);
        reply 201 (JEntity (Some newEntity))
    | inr errors => reply 400 (invalid o errors)
    end).

Definition handle (user : option obj) (r : request) : M response :=
  match r with
  | GetList r => get_list r
  | GetUpcoming count_param now => get_upcoming date_ms count_param now
  | GetById r id_param => get_by_id r id_param
  | GetReplies topicId_param => get_replies topicId_param
  | GetSiteSettings => get_site_settings
  | GetSiteSettingByKey key => get_site_setting key
  | PostOwned o req_body now => post_owned o user req_body now
  | PatchOwned o id_param req_body now => patch_owned o user id_param req_body now
  | DeleteOwned o id_param => delete_owned o user id_param
  | PostUpload now => post_upload user now
  | GetMedia => get_media user
  | GetUsers => get_users user
  | PatchUser id_param req_body now => patch_user user id_param req_body now
  | PostSiteSetting req_body now => post_site_setting user req_body now
  | PostSiteSettingsBatch req_body clock => post_site_settings_batch user req_body clock
  end.

(** A sequence of requests, each with its session user. *)
Fixpoint handle_all (rs : list (option obj * request)) (w : World) : World :=
  match rs with
  | [] => w
  | (user, r) :: rs' => handle_all rs' (handle user r w).2
  end.
End Server.

(** The two routes that write settings. *)
Definition upserts_settings (r : request) : bool :=
  match r with
  | PostSiteSetting _ _ | PostSiteSettingsBatch _ _ => true
  | _ => false
  end.

(** A setting found for a key in [st] is still found in [st'], under the
    same id. *)
Definition persists (st st' : MemStorage) : Prop :=
  ∀ q s, getSiteSetting q st = Some s →
    ∃ s', getSiteSetting q st' = Some s' ∧ prop s' "id" = prop s "id".

(** The value of the last item of a batch that carries the key [key]. *)
Fixpoint last_value (key : value) (items : list value) : option value :=
  match items with
  | [] => None
  | item :: rest =>
      match last_value key rest with
      | Some v => Some v
      | None =>
          if has_truthy_key item && strict_eq (get_prop item "key") key
          then Some (get_prop item "value")
          else None
      end
  end.

(** A validator for the samples: it accepts a body that has a title. *)
Definition sample_parse (o : owned) (b : obj) : obj + value :=
  match b !! "title" with
  | Some _ => inl b
  | None => inr (VArr [VStr "title: Required"])
  end.

Definition reply_in (topic : Z) (text : string) : obj :=
  {[ "content" := VStr text; "topicId" := VNum topic; "authorId" := VNum 7 ]}.

(** ** Two readers on the client side *)

(** [siteSettings?.find(s => s.key === key)?.value || fallback]: how the
    footer, the sidebar and the navigation bar read a site setting from
    the list that [GET /api/site-settings] returned; [None] while the
    query has no data yet. Only [key] and [value] are read, which arrive
    through JSON as they were stored. *)
Definition setting_or (siteSettings : option (list obj)) (key : string)
    (fallback : value) : value :=
  let found :=
    match siteSettings with
    | Some settings =>
        match find (has_key (VStr key)) settings with
        | Some s => prop s "value"
        | None => VUndefined
        end
    | None => VUndefined
    end in
  if truthy found then found else fallback.

(** [AvatarGroup]: the avatars that are rendered, and the number on the
    "+n" badge when the badge is rendered. [max] defaults to 4. *)
Definition avatar_group {A} (avatars : list A) (max : option number)
  : list A * option number :=
  let max := default (Num 4) max in
  let visibleAvatars := slice_to max avatars in
  let remainder := num_sub (Num (Z.of_nat (length avatars))) max in
  (visibleAvatars, if num_gt remainder (Num 0) then Some remainder else None).

(** ** More sample data *)

(** A store with three replies, two of them on topic 5, and no topic. *)
Definition three_replies : MemStorage :=
  (run [Create ForumReply 0 (reply_in 5 "first"); Create ForumReply 0 (reply_in 6 "aside");
        Create ForumReply 0 (reply_in 5 "second")] new_MemStorage).2.

(** A world in which the admin has posted the site name. *)
Definition named_site : World :=
  (post_site_setting (Some admin1) (setting_body "siteName" "IBI") 10 new_World).2.

(** A second registration under the name of user 7. *)
Definition second_ana : obj := <["email" := VStr "second@example.org"]> member7.

(** * Properties *)

(** ** Map<number, T> *)

Section MapFacts.
Context {V : Type}.
Implicit Types (m : list (Z * V)) (k : Z) (n : number).

Lemma map_get_NaN m : map_get NaN m = None.
Proof. destruct m as [|[k v] m]; reflexivity. Qed.

Lemma map_get_set_eq k v m : map_get (Num k) (map_set k v m) = Some v.
Proof.
  induction m as [|[k' v'] m IH]; simpl.
  - by rewrite Z.eqb_refl.
  - destruct (k =? k') eqn:E; simpl; rewrite ?Z.eqb_refl, ?E; done.
Qed.

Lemma map_get_set_ne k n v m :
  n ≠ Num k → map_get n (map_set k v m) = map_get n m.
Proof.
  intros Hne. destruct n as [|z]; [by rewrite !map_get_NaN|].
  assert (z ≠ k) as Hzk by congruence.
  induction m as [|[k' v'] m IH]; simpl.
  - by apply Z.eqb_neq in Hzk as ->.
  - destruct (k =? k') eqn:E; simpl.
    + apply Z.eqb_eq in E as <-. by apply Z.eqb_neq in Hzk as ->.
    + by rewrite IH.
Qed.

Lemma map_get_Some_elem n v m : map_get n m = Some v → ∃ k, n = Num k ∧ (k, v) ∈ m.
Proof.
  destruct n as [|z]; [by rewrite map_get_NaN|].
  induction m as [|[k' v'] m IH]; simpl; [done|].
  destruct (z =? k') eqn:E.
  - apply Z.eqb_eq in E as ->. intros [= ->]. exists k'. split; [done|]. by left.
  - intros [k [Hk Hin]]%IH. exists k. split; [done|]. by right.
Qed.

Lemma map_get_None_keys k m : map_get (Num k) m = None ↔ k ∉ m.*1.
Proof.
  induction m as [|[k' v'] m IH]; simpl.
  - split; [intros _; apply not_elem_of_nil | done].
  - rewrite not_elem_of_cons. destruct (k =? k') eqn:E.
    + apply Z.eqb_eq in E. split; [done | intros [? _]; done].
    + apply Z.eqb_neq in E. rewrite IH. tauto.
Qed.

Lemma map_set_keys_absent k v m : k ∉ m.*1 → (map_set k v m).*1 = m.*1 ++ [k].
Proof.
  induction m as [|[k' v'] m IH]; simpl; [done|].
  rewrite not_elem_of_cons. intros [Hne Hnin].
  apply Z.eqb_neq in Hne as ->. csimpl. by rewrite IH.
Qed.

Lemma map_set_keys_present k v m : k ∈ m.*1 → (map_set k v m).*1 = m.*1.
Proof.
  induction m as [|[k' v'] m IH]; simpl; [by intros ?%elem_of_nil|].
  destruct (k =? k') eqn:E.
  - apply Z.eqb_eq in E as ->. done.
  - apply Z.eqb_neq in E. rewrite elem_of_cons. intros [?|Hin]; [done|].
    csimpl. by rewrite IH.
Qed.

Lemma map_delete_get n m : map_get n (map_delete n m).2 = None.
Proof.
  destruct n as [|z]; [by rewrite map_get_NaN|].
  unfold map_delete; simpl.
  induction m as [|[k' v'] m IH]; [done|].
  simpl. destruct (z =? k') eqn:E; simpl; [done|].
  by rewrite E.
Qed.

Lemma map_delete_get_ne n n' m : n' ≠ n → map_get n' (map_delete n m).2 = map_get n' m.
Proof.
  intros Hne. destruct n' as [|z']; [by rewrite !map_get_NaN|].
  unfold map_delete; simpl.
  induction m as [|[k' v'] m IH]; [done|].
  simpl.
  destruct (is_key n k') eqn:E; simpl.
  - destruct n as [|z]; [done|]. simpl in E. apply Z.eqb_eq in E as ->.
    assert (z' ≠ k') as ->%Z.eqb_neq by congruence. done.
  - by rewrite IH.
Qed.

Lemma map_delete_absent n m : map_get n m = None → (map_delete n m).2 = m.
Proof.
  unfold map_delete; simpl.
  destruct n as [|z].
  { intros _. induction m as [|[k' v'] m IH]; [done|].
    simpl. f_equal. exact IH. }
  induction m as [|[k' v'] m IH]; [done|]. simpl.
  destruct (z =? k') eqn:E; [done|].
  simpl. intros H. f_equal. by apply IH.
Qed.

Lemma map_delete_found n m : (map_delete n m).1 = true ↔ is_Some (map_get n m).
Proof.
  unfold map_delete, map_has; simpl. destruct (map_get n m).
  - split; eauto.
  - split; [done | by intros [? ?]].
Qed.
End MapFacts.

(** ** Collections of the store *)

Arguments coll : simpl never.
Arguments with_coll : simpl never.

Lemma coll_with_coll k c st : coll k (with_coll k c st) = c.
Proof. by destruct k as [|[]|]. Qed.

Lemma coll_with_coll_ne k k' c st : k' ≠ k → coll k' (with_coll k c st) = coll k' st.
Proof. by destruct k as [|[]|], k' as [|[]|]. Qed.

Lemma with_coll_same k st :
  with_coll k (mkColl (data (coll k st)) (idCounter (coll k st))) st = st.
Proof. destruct st as [[] [] [] [] [] [] []]; by destruct k as [|[]|]. Qed.

Lemma kind_eqb_eq a b : kind_eqb a b = true ↔ a = b.
Proof. destruct a as [|[]|], b as [|[]|]; simpl; split; congruence. Qed.

Lemma get_with_coll_ne k k' c st id : k' ≠ k → get k' id (with_coll k c st) = get k' id st.
Proof. intros. unfold get. by rewrite coll_with_coll_ne. Qed.

(** ** delete *)

Implicit Types (o : owned) (k : kind) (id : number) (st : MemStorage).

Lemma delete_found o id st : (delete_ o id st).1 = true ↔ is_Some (get o id st).
Proof. unfold delete_, get. simpl. apply map_delete_found. Qed.

Lemma delete_not_found o id st : (delete_ o id st).1 = false ↔ get o id st = None.
Proof.
  unfold delete_, get, map_delete, map_has. simpl.
  by destruct (map_get id (data (coll o st))).
Qed.

Lemma delete_get o id st : get o id (delete_ o id st).2 = None.
Proof.
  unfold delete_, get. simpl. rewrite coll_with_coll. simpl.
  apply (map_delete_get id (data (coll o st))).
Qed.

Lemma delete_get_other o id k id' st :
  k ≠ Owned o ∨ id' ≠ id → get k id' (delete_ o id st).2 = get k id' st.
Proof.
  intros Hne. unfold delete_. simpl.
  destruct (decide (k = Owned o)) as [->|Hk].
  - destruct Hne as [?|Hne]; [done|]. unfold get. rewrite coll_with_coll. simpl.
    by apply (map_delete_get_ne id id' (data (coll o st))).
  - by apply get_with_coll_ne.
Qed.

Lemma delete_absent o id st : get o id st = None → delete_ o id st = (false, st).
Proof.
  intros Hget. unfold delete_. simpl. f_equal.
  - unfold map_has. unfold get in Hget. by rewrite Hget.
  - pose proof (map_delete_absent id (data (coll o st)) Hget) as Hm.
    unfold map_delete in Hm. simpl in Hm. rewrite Hm. apply with_coll_same.
Qed.

(** C8. [delete(id)] returns [true] exactly when a record with that id
    existed; afterwards the id is absent and every other record, of this and
    of every other collection, is as before. Deleting an absent id returns
    [false] and leaves the store as it is; hence a second [delete(id)]
    returns [false] and changes nothing, and on an existing record the two
    calls return [true] then [false]. *)
Theorem delete_removes_once (o : owned) (id : number) (st : MemStorage) :
  let r := delete_ o id st in
  (r.1 = true ↔ is_Some (get o id st))
  ∧ (r.1 = false ↔ get o id st = None)
  ∧ get o id r.2 = None
  ∧ (∀ k id', k ≠ Owned o ∨ id' ≠ id → get k id' r.2 = get k id' st)
  ∧ (get o id st = None → r = (false, st))
  ∧ delete_ o id r.2 = (false, r.2)
  ∧ (is_Some (get o id st) → r.1 = true ∧ (delete_ o id r.2).1 = false).
Proof.
  cbv zeta. split_and!.
  - apply delete_found.
  - apply delete_not_found.
  - apply delete_get.
  - intros. by apply delete_get_other.
  - apply delete_absent.
  - apply delete_absent, delete_get.
  - intros H. split; [by apply delete_found|].
    by rewrite delete_absent by apply delete_get.
Qed.

(** ** update *)

Lemma update_absent k now id P st :
  get k id st = None → update k now id P st = (None, st).
Proof. intros H. unfold update. destruct id; [done|]. by rewrite H. Qed.

Lemma update_present k now id P E st :
  get k id st = Some E →
  ∃ z, id = Num z ∧
    update k now id P st =
      (Some (merge k now E P),
       with_coll k (mkColl (map_set z (merge k now E P) (data (coll k st)))
                      (idCounter (coll k st))) st).
Proof.
  intros H. unfold update. destruct id as [|z].
  - unfold get in H. by rewrite map_get_NaN in H.
  - rewrite H. by exists z.
Qed.

Lemma update_get k now id P E st :
  get k id st = Some E →
  get k id (update k now id P st).2 = Some (merge k now E P).
Proof.
  intros H. destruct (update_present k now id P E st H) as (z & -> & ->). simpl.
  unfold get. rewrite coll_with_coll. simpl. apply map_get_set_eq.
Qed.

Lemma update_get_other k now id P st k' id' :
  k' ≠ k ∨ id' ≠ id → get k' id' (update k now id P st).2 = get k' id' st.
Proof.
  intros Hne. destruct (get k id st) as [E|] eqn:H.
  - destruct (update_present k now id P E st H) as (z & -> & ->). simpl.
    destruct (decide (k' = k)) as [->|Hk].
    + destruct Hne as [?|Hne]; [done|]. unfold get. rewrite coll_with_coll. simpl.
      by apply map_get_set_ne.
    + by apply get_with_coll_ne.
  - by rewrite update_absent.
Qed.

Lemma update_counter k now id P st k' :
  idCounter (coll k' (update k now id P st).2) = idCounter (coll k' st).
Proof.
  destruct (get k id st) as [E|] eqn:H.
  - destruct (update_present k now id P E st H) as (z & -> & ->). simpl.
    destruct (decide (k' = k)) as [->|Hk].
    + by rewrite coll_with_coll.
    + by rewrite coll_with_coll_ne.
  - by rewrite update_absent.
Qed.

Lemma merge_supplied k now E P f v :
  P !! f = Some v → (k = SiteSetting → f ≠ "updatedAt") → merge k now E P !! f = Some v.
Proof.
  intros HP Hf. assert ((P ∪ E) !! f = Some v) as HU.
  { apply lookup_union_Some_raw. by left. }
  destruct k as [|o|]; simpl; try done.
  rewrite lookup_insert_ne; [done|]. intros Heq. by apply Hf.
Qed.

Lemma merge_omitted k now E P f :
  P !! f = None → (k = SiteSetting → f ≠ "updatedAt") → merge k now E P !! f = E !! f.
Proof.
  intros HP Hf. assert ((P ∪ E) !! f = E !! f) as HU.
  { by apply lookup_union_r. }
  destruct k as [|o|]; simpl; try done.
  rewrite lookup_insert_ne; [done|]. intros Heq. by apply Hf.
Qed.

Lemma update_ignores_clock k now now' id P st :
  k ≠ SiteSetting → update k now id P st = update k now' id P st.
Proof. intros Hk. unfold update, merge. by destruct k. Qed.

Lemma merge_updatedAt now E P : merge SiteSetting now E P !! "updatedAt" = Some (VDate now).
Proof. simpl. apply lookup_insert_eq. Qed.

(** C3, amended. For an existing entity [E] and a partial update [P],
    [update(E.id, P)] returns and stores a record that equals [E] on every
    field that [P] does not supply and carries [P]'s value on every field
    that [P] supplies; so [id] and the creation timestamp are unchanged
    whenever [P] does not contain them. A site setting's [updatedAt] is
    the exception: its update sets it to the current time, whatever [P]
    says. No other record is touched and no counter moves. *)
Theorem update_frame (k : kind) (now : Z) (id : number) (P E : obj) (st : MemStorage) :
  get k id st = Some E →
  ∃ r, (update k now id P st).1 = Some r
    ∧ get k id (update k now id P st).2 = Some r
    ∧ (∀ f, P !! f = None → (k = SiteSetting → f ≠ "updatedAt") → r !! f = E !! f)
    ∧ (∀ f v, P !! f = Some v → (k = SiteSetting → f ≠ "updatedAt") → r !! f = Some v)
    ∧ (P !! "id" = None → r !! "id" = E !! "id")
    ∧ (P !! "createdAt" = None → r !! "createdAt" = E !! "createdAt")
    ∧ (k = SiteSetting → r !! "updatedAt" = Some (VDate now))
    ∧ (∀ k' id', k' ≠ k ∨ id' ≠ id →
         get k' id' (update k now id P st).2 = get k' id' st)
    ∧ (∀ k', idCounter (coll k' (update k now id P st).2) = idCounter (coll k' st)).
Proof.
  intros H. exists (merge k now E P).
  split_and!.
  - by destruct (update_present k now id P E st H) as (z & -> & ->).
  - by apply update_get.
  - intros. by apply merge_omitted.
  - intros. by apply merge_supplied.
  - intros. by apply merge_omitted.
  - intros. by apply merge_omitted.
  - intros ->. apply merge_updatedAt.
  - intros. by apply update_get_other.
  - intros. apply update_counter.
Qed.

(** ** Identity assignment *)

Arguments create : simpl never.
Arguments update : simpl never.
Arguments delete_ : simpl never.

Lemma create_id k now fields st :
  prop (create k now fields st).1 "id" = VNum (idCounter (coll k st)).
Proof.
  unfold create, prop. cbn [fst].
  rewrite lookup_insert_ne by (by destruct k).
  by rewrite lookup_insert_eq.
Qed.

Lemma create_counter k now fields st k' :
  idCounter (coll k' (create k now fields st).2) =
    if decide (k' = k) then idCounter (coll k st) + 1 else idCounter (coll k' st).
Proof.
  unfold create. cbn [snd]. case_decide as Hk.
  - subst. by rewrite coll_with_coll.
  - by rewrite coll_with_coll_ne.
Qed.

Lemma delete_counter o id st k' :
  idCounter (coll k' (delete_ o id st).2) = idCounter (coll k' st).
Proof.
  unfold delete_, map_delete. cbn [snd]. destruct (decide (k' = Owned o)) as [->|Hk].
  - by rewrite coll_with_coll.
  - by rewrite coll_with_coll_ne.
Qed.

Lemma run_cons op ops st :
  run (op :: ops) st =
    (match (step op st).1 with
     | Some c => c :: (run ops (step op st).2).1
     | None => (run ops (step op st).2).1
     end, (run ops (step op st).2).2).
Proof.
  cbn [run]. destruct (step op st) as [r st1]. cbn [fst snd].
  by destruct (run ops st1).
Qed.

Lemma step_create k now fields st :
  step (Create k now fields) st =
    (Some (k, (create k now fields st).1), (create k now fields st).2).
Proof. unfold step. by destruct (create k now fields st). Qed.

(** The creates of one kind hand out consecutive ids, starting at the
    collection's counter, whatever updates, deletes and operations on
    other kinds come in between. *)
Lemma run_created_ids k ops st :
  created_ids k (run ops st).1 =
    VNum <$> seqZ (idCounter (coll k st)) (Z.of_nat (creates k ops)).
Proof.
  revert st. induction ops as [|op ops IH]; intros st; [done|].
  rewrite run_cons. unfold creates, created_ids in *. cbn [fst List.filter].
  destruct op as [k' now fields|k' now id fields|o id].
  - rewrite step_create. cbn [fst snd List.filter is_create_of].
    destruct (kind_eqb k k') eqn:Hk.
    + apply kind_eqb_eq in Hk as <-. cbn [map length fst snd].
      rewrite seqZ_cons by lia. rewrite fmap_cons. f_equal.
      * apply create_id.
      * rewrite IH, create_counter, decide_True by done. do 2 f_equal; lia.
    + rewrite IH, create_counter, decide_False; [done|].
      intros ->. destruct k' as [|[]|]; done.
  - cbn [step fst snd is_create_of]. by rewrite IH, update_counter.
  - cbn [step fst snd is_create_of]. by rewrite IH, delete_counter.
Qed.

Lemma seqZ_increasing m n : StronglySorted Z.lt (seqZ m n).
Proof.
  destruct (decide (0 ≤ n)) as [Hn|Hn]; [|rewrite seqZ_nil by lia; constructor].
  rewrite <-(Z2Nat.id n) by done. clear Hn.
  generalize (Z.to_nat n) as i. clear n. intros i. revert m.
  induction i as [|i IH]; intros m.
  - rewrite seqZ_nil by lia. constructor.
  - rewrite seqZ_cons by lia. constructor.
    + replace (Z.pred (Z.of_nat (S i))) with (Z.of_nat i) by lia. apply IH.
    + apply Forall_seqZ. lia.
Qed.

(** C6. Starting from a fresh store, take any sequence of creates, updates
    and deletes (on any kinds, in any order). The ids of the records
    returned by the creates of one kind are the numbers 1, 2, ..., N in the
    order of the calls: one per create, positive, strictly increasing and
    therefore pairwise distinct. Deletes in between do not bring an id
    back. *)
Theorem created_ids_increasing (k : kind) (ops : list storage_op) :
  ∃ ids : list Z,
    created_ids k (run ops new_MemStorage).1 = VNum <$> ids
    ∧ length ids = creates k ops
    ∧ StronglySorted Z.lt ids
    ∧ Forall (λ i, 0 < i) ids
    ∧ NoDup ids
    ∧ ids = seqZ 1 (Z.of_nat (creates k ops)).
Proof.
  exists (seqZ 1 (Z.of_nat (creates k ops))). split_and!.
  - rewrite run_created_ids. by destruct k as [|[]|].
  - rewrite length_seqZ. lia.
  - apply seqZ_increasing.
  - apply Forall_seqZ. lia.
  - apply NoDup_seqZ.
  - done.
Qed.

(** The same from an arbitrary store: every id handed out later is at
    least the current counter, so above every id handed out before. *)
Lemma created_ids_from k ops st :
  ∃ ids : list Z,
    created_ids k (run ops st).1 = VNum <$> ids
    ∧ StronglySorted Z.lt ids
    ∧ Forall (λ i, idCounter (coll k st) ≤ i) ids.
Proof.
  exists (seqZ (idCounter (coll k st)) (Z.of_nat (creates k ops))). split_and!.
  - apply run_created_ids.
  - apply seqZ_increasing.
  - apply Forall_seqZ. lia.
Qed.

(** ** Upcoming events *)

Section SortFacts.
Context {A : Type} (cmp : A → A → number).

Lemma sort_insert_perm x l : sort_insert cmp x l ≡ₚ x :: l.
Proof.
  induction l as [|y l IH]; simpl; [done|].
  destruct (goes_after (cmp x y)); [|done].
  rewrite IH. apply Permutation_swap.
Qed.

Lemma sort_perm l : sort cmp l ≡ₚ l.
Proof.
  induction l as [|x l IH]; simpl; [done|].
  by rewrite sort_insert_perm, IH.
Qed.

(** The comparator agrees with a preorder [le] on the elements that
    satisfy [ok]. *)
Context (le : A → A → Prop) (ok : A → Prop).
Hypothesis le_trans : ∀ a b c, le a b → le b c → le a c.
Hypothesis cmp_pos : ∀ a b, ok a → ok b → goes_after (cmp a b) = true → le b a.
Hypothesis cmp_nonpos : ∀ a b, ok a → ok b → goes_after (cmp a b) = false → le a b.

Lemma sort_insert_sorted x l :
  ok x → Forall ok l → StronglySorted le l → StronglySorted le (sort_insert cmp x l).
Proof.
  intros Hx Hl Hs. induction Hs as [|y l Hs IH Hy]; simpl.
  - repeat constructor.
  - apply Forall_cons in Hl as [Hoky Hl].
    destruct (goes_after (cmp x y)) eqn:Hc.
    + constructor; [by apply IH|].
      rewrite sort_insert_perm. constructor; [by apply cmp_pos | done].
    + assert (le x y) as Hxy by by apply cmp_nonpos.
      constructor; [by constructor|].
      constructor; [done|]. eapply Forall_impl; [exact Hy|].
      intros z Hz. by eapply le_trans.
Qed.

Lemma sort_sorted l : Forall ok l → StronglySorted le (sort cmp l).
Proof.
  induction 1 as [|x l Hx Hl IH]; simpl; [constructor|].
  apply sort_insert_sorted; [done| |done].
  by rewrite sort_perm.
Qed.
End SortFacts.

Section Upcoming.
Variable date_ms : value → number.

Lemma is_upcoming_starts_after now e :
  is_upcoming date_ms now e = starts_after date_ms now e.
Proof.
  unfold is_upcoming, starts_after, startTime_ms, num_gt.
  by destruct (date_ms (prop e "startTime")).
Qed.

Lemma starts_after_spec now e :
  starts_after date_ms now e = true ↔ ∃ t, starts_at date_ms e t ∧ now < t.
Proof.
  unfold starts_after, starts_at. destruct (date_ms (prop e "startTime")) as [|t].
  - split; [done | by intros (t & ? & ?)].
  - rewrite Z.ltb_lt. split; [by exists t | intros (t' & [= ->] & ?); done].
Qed.

Lemma filter_upcoming now st :
  List.filter (is_upcoming date_ms now) (getAllEvents st) = upcoming date_ms now st.
Proof.
  unfold upcoming, stored_events, getAllEvents, getAll.
  apply filter_ext. intros e. apply is_upcoming_starts_after.
Qed.

Lemma getUpcomingEvents_eq now count st :
  getUpcomingEvents date_ms now count st =
    slice_to (default (Num 5) count)
      (sort (by_startTime date_ms) (upcoming date_ms now st)).
Proof. unfold getUpcomingEvents. by rewrite filter_upcoming. Qed.

Lemma elem_of_upcoming now st e :
  e ∈ upcoming date_ms now st ↔
    e ∈ stored_events st ∧ ∃ t, starts_at date_ms e t ∧ now < t.
Proof.
  unfold upcoming. rewrite !list_elem_of_In, filter_In.
  by rewrite starts_after_spec.
Qed.

Lemma by_startTime_pos a b :
  (∃ t, starts_at date_ms a t) → (∃ t, starts_at date_ms b t) →
  goes_after (by_startTime date_ms a b) = true → time_le date_ms b a.
Proof.
  intros [ta Ha] [tb Hb]. unfold by_startTime, startTime_ms, starts_at in *.
  rewrite Ha, Hb. simpl.
  intros H%Z.ltb_lt. exists tb, ta. unfold starts_at. split_and!; [done..|lia].
Qed.

Lemma by_startTime_nonpos a b :
  (∃ t, starts_at date_ms a t) → (∃ t, starts_at date_ms b t) →
  goes_after (by_startTime date_ms a b) = false → time_le date_ms a b.
Proof.
  intros [ta Ha] [tb Hb]. unfold by_startTime, startTime_ms, starts_at in *.
  rewrite Ha, Hb. simpl.
  intros H%Z.ltb_ge. exists ta, tb. unfold starts_at. split_and!; [done..|lia].
Qed.

Lemma time_le_trans a b c :
  time_le date_ms a b → time_le date_ms b c → time_le date_ms a c.
Proof.
  intros (ta & tb & Ha & Hb & ?) (tb' & tc & Hb' & Hc & ?).
  unfold starts_at in *. rewrite Hb in Hb'. injection Hb' as <-.
  exists ta, tc. unfold starts_at. split_and!; [done..|lia].
Qed.

Lemma sorted_upcoming now st :
  StronglySorted (time_le date_ms)
    (sort (by_startTime date_ms) (upcoming date_ms now st)).
Proof.
  apply (sort_sorted _ _ (λ e, ∃ t, starts_at date_ms e t)).
  - apply time_le_trans.
  - apply by_startTime_pos.
  - apply by_startTime_nonpos.
  - apply Forall_forall. intros e (_ & t & Ht & _)%elem_of_upcoming. by exists t.
Qed.

(** C7. [getUpcomingEvents(count)] for a count [c ≥ 0], 5 when the
    argument is omitted. Every event returned is held by the store and
    its [startTime] property, read as a date, is strictly after the
    current time; the result is in ascending order of [startTime]; it has
    [c] elements, or as many as there are stored events starting after
    now when these are fewer; it is a front part of those events in that
    order: what is left out starts no earlier than anything returned;
    when [c] is large enough, a stored event is returned exactly when it
    starts after now. An event whose [startTime] is now or earlier, or no
    date, is never returned. *)
Theorem upcoming_events_first_count (now : Z) (count : option number) (c : Z)
    (st : MemStorage) :
  default (Num 5) count = Num c → 0 ≤ c →
  let r := getUpcomingEvents date_ms now count st in
  (∀ e, e ∈ r →
     e ∈ map snd (data (events st))
     ∧ ∃ t, date_ms (prop e "startTime") = Num t ∧ now < t)
  ∧ StronglySorted (time_le date_ms) r
  ∧ length r = Nat.min (Z.to_nat c) (length (upcoming date_ms now st))
  ∧ (∃ rest, r ++ rest ≡ₚ upcoming date_ms now st
       ∧ ∀ a b, a ∈ r → b ∈ rest → time_le date_ms a b)
  ∧ (Z.of_nat (length (upcoming date_ms now st)) ≤ c →
       r ≡ₚ upcoming date_ms now st
       ∧ ∀ e, e ∈ r ↔
           e ∈ map snd (data (events st))
           ∧ ∃ t, date_ms (prop e "startTime") = Num t ∧ now < t)
  ∧ (∀ e, e ∈ r → date_ms (prop e "startTime") = NaN → False)
  ∧ (∀ e t, e ∈ r → date_ms (prop e "startTime") = Num t → now < t).
Proof.
  intros Hcount Hc r.
  set (sorted := sort (by_startTime date_ms) (upcoming date_ms now st)).
  assert (r = take (Z.to_nat c) sorted) as Hr.
  { unfold r. rewrite getUpcomingEvents_eq, Hcount. unfold slice_to.
    by rewrite (proj2 (Z.ltb_ge c 0) Hc). }
  assert (sorted ≡ₚ upcoming date_ms now st) as Hperm by apply sort_perm.
  assert (StronglySorted (time_le date_ms) sorted) as Hsorted by apply sorted_upcoming.
  assert (∀ e, e ∈ r → e ∈ upcoming date_ms now st) as Hin.
  { intros e He. rewrite <-Hperm. rewrite Hr in He.
    rewrite <-(take_drop (Z.to_nat c) sorted). apply elem_of_app. by left. }
  split_and!.
  - intros e He. by apply (elem_of_upcoming now st e), Hin.
  - rewrite Hr. rewrite <-(take_drop (Z.to_nat c) sorted) in Hsorted.
    by apply StronglySorted_app_1_l in Hsorted.
  - rewrite Hr, length_take, Hperm. done.
  - exists (drop (Z.to_nat c) sorted). rewrite Hr, take_drop. split; [done|].
    intros a b Ha Hb. rewrite <-(take_drop (Z.to_nat c) sorted) in Hsorted.
    by eapply StronglySorted_app_1_elem_of.
  - intros Hlen.
    assert (r ≡ₚ upcoming date_ms now st) as Hall.
    { rewrite Hr, take_ge; [done|]. rewrite Hperm. lia. }
    split; [done|]. intros e. rewrite Hall. apply elem_of_upcoming.
  - intros e He Hnan. apply Hin, elem_of_upcoming in He as (_ & t' & Ht' & ?).
    unfold starts_at in Ht'. congruence.
  - intros e t He Ht. apply Hin, elem_of_upcoming in He as (_ & t' & Ht' & ?).
    unfold starts_at in Ht'. rewrite Ht in Ht'. by injection Ht' as <-.
Qed.
End Upcoming.

(** ** The ownership gate *)

Implicit Types (w : World) (u : obj).

Ltac handler :=
  unfold isAuthenticated, isAdmin, query, invoke, reply, mbind, M_bind, mret, M_ret;
  cbn [fst snd storage calls].

Lemma patch_owned_eq o u id_param req_body now w :
  patch_owned o (Some u) id_param req_body now w =
    let id := parseInt id_param in
    let w1 := mkWorld (storage w) (calls w ++ [CallGet o id]) in
    match get o id (storage w) with
    | None => (mkResponse 404 (not_found o), w1)
    | Some e =>
        if forbidden o e u then (mkResponse 403 (JMessage "Forbidden"), w1)
        else
          let r := update o now id req_body (storage w) in
          (mkResponse 200 (JEntity r.1),
           mkWorld r.2 (calls w ++ [CallGet o id] ++ [CallUpdate o id req_body]))
    end.
Proof.
  unfold patch_owned. handler.
  destruct (get o (parseInt id_param) (storage w)) as [e|]; [|done].
  destruct (forbidden o e u); [done|]. handler.
  destruct (update o now (parseInt id_param) req_body (storage w)).
  by rewrite <-app_assoc.
Qed.

Lemma delete_owned_eq o u id_param w :
  delete_owned o (Some u) id_param w =
    let id := parseInt id_param in
    let w1 := mkWorld (storage w) (calls w ++ [CallGet o id]) in
    match get o id (storage w) with
    | None => (mkResponse 404 (not_found o), w1)
    | Some e =>
        if forbidden o e u then (mkResponse 403 (JMessage "Forbidden"), w1)
        else
          let r := delete_ o id (storage w) in
          (mkResponse (if r.1 then 200 else 404) (if r.1 then deleted o else not_found o),
           mkWorld r.2 (calls w ++ [CallGet o id] ++ [CallDelete o id]))
    end.
Proof.
  unfold delete_owned. handler.
  destruct (get o (parseInt id_param) (storage w)) as [e|]; [|done].
  destruct (forbidden o e u); [done|]. handler.
  destruct (delete_ o (parseInt id_param) (storage w)) as [[] st'];
    by rewrite <-app_assoc.
Qed.

(** C1. An authenticated principal [u] sends PATCH or DELETE for an owned
    entity (event, study, post, forum topic or forum reply). When no entity
    has the id, the answer is 404, whoever [u] is. When the entity exists
    and [u] is neither its owner nor an admin, the answer is 403. In both
    cases the status is not 200, the store is left as it was, and the only
    repository call made is the lookup: no update and no delete. *)
Theorem owner_gate (o : owned) (u : obj) (id_param : string) (req_body : obj)
    (now : Z) (w : World) :
  let id := parseInt id_param in
  let rejected (status_code : Z) (r : response * World) :=
    status r.1 = status_code ∧ status r.1 ≠ 200
    ∧ storage r.2 = storage w
    ∧ calls r.2 = calls w ++ [CallGet o id]
    ∧ Forall (λ c, is_mutation c = false) (drop (length (calls w)) (calls r.2)) in
  (get o id (storage w) = None →
     rejected 404 (patch_owned o (Some u) id_param req_body now w)
     ∧ rejected 404 (delete_owned o (Some u) id_param w))
  ∧ (∀ e, get o id (storage w) = Some e →
       strict_eq (prop e (owner_field o)) (prop u "id") = false →
       strict_eq (prop u "role") (VStr "admin") = false →
       rejected 403 (patch_owned o (Some u) id_param req_body now w)
       ∧ rejected 403 (delete_owned o (Some u) id_param w)).
Proof.
  intros id rejected. rewrite patch_owned_eq, delete_owned_eq. cbv zeta.
  fold id. unfold rejected. split.
  - intros ->. cbn [fst snd status storage calls].
    rewrite drop_app_length. by repeat constructor.
  - intros e -> Howner Hadmin. unfold forbidden. rewrite Howner, Hadmin.
    cbn [negb andb fst snd status storage calls].
    rewrite drop_app_length. by repeat constructor.
Qed.

(** ** Unvalidated PATCH bodies *)

Lemma forbidden_false o e u :
  forbidden o e u = false ↔
    strict_eq (prop e (owner_field o)) (prop u "id") = true
    ∨ strict_eq (prop u "role") (VStr "admin") = true.
Proof.
  unfold forbidden.
  destruct (strict_eq (prop e _) _), (strict_eq (prop u "role") _); simpl;
    intuition congruence.
Qed.

(** C9. A PATCH on an existing owned entity by a principal that passes the
    ownership gate (its owner, or an admin) hands the request body to the
    repository as it arrived, answers 200, and stores the merge in which
    every property of the body replaces the stored one. So a body that
    names the owner field, [id] or [createdAt] overwrites that field,
    while the record stays under its old map key. *)
Theorem patch_overwrites (o : owned) (u : obj) (id_param : string) (req_body e : obj)
    (now : Z) (w : World) :
  let id := parseInt id_param in
  get o id (storage w) = Some e →
  strict_eq (prop e (owner_field o)) (prop u "id") = true
    ∨ strict_eq (prop u "role") (VStr "admin") = true →
  let r := patch_owned o (Some u) id_param req_body now w in
  let stored := req_body ∪ e in
  r.1 = mkResponse 200 (JEntity (Some stored))
  ∧ calls r.2 = calls w ++ [CallGet o id; CallUpdate o id req_body]
  ∧ get o id (storage r.2) = Some stored
  ∧ (∀ f v, req_body !! f = Some v → stored !! f = Some v)
  ∧ (∀ v, req_body !! owner_field o = Some v → prop stored (owner_field o) = v)
  ∧ (∀ v, req_body !! "id" = Some v → prop stored "id" = v)
  ∧ (∀ v, req_body !! "createdAt" = Some v → prop stored "createdAt" = v)
  ∧ (∀ f, req_body !! f = None → stored !! f = e !! f).
Proof.
  intros id Hget Hgate r stored.
  assert (∀ f v, req_body !! f = Some v → stored !! f = Some v) as Hsup.
  { intros f v Hf. apply lookup_union_Some_raw. by left. }
  assert (r = (mkResponse 200 (JEntity (Some stored)),
               mkWorld (update o now id req_body (storage w)).2
                 (calls w ++ [CallGet o id; CallUpdate o id req_body]))) as Hr.
  { unfold r. rewrite patch_owned_eq. cbv zeta. fold id. rewrite Hget.
    rewrite (proj2 (forbidden_false o e u) Hgate).
    destruct (update_present o now id req_body e (storage w) Hget) as (z & _ & ->).
    cbn [fst snd]. reflexivity. }
  rewrite Hr. cbn [fst snd storage calls]. split_and!; try done.
  - rewrite (update_get o now id req_body e) by done. by destruct o.
  - intros v Hv. unfold prop. by rewrite (Hsup _ _ Hv).
  - intros v Hv. unfold prop. by rewrite (Hsup _ _ Hv).
  - intros v Hv. unfold prop. by rewrite (Hsup _ _ Hv).
  - intros f Hf. by apply lookup_union_r.
Qed.

(** ** Responses that contain a user *)

Lemma without_password_lookup x : without_password x !! "password" = None.
Proof. apply lookup_delete_eq. Qed.

Lemma get_users_eq user w :
  get_users user w =
    match user with
    | Some u =>
        if strict_eq (prop u "role") (VStr "admin")
        then (mkResponse 200 (JArray (map without_password (getAllUsers (storage w)))),
              mkWorld (storage w) (calls w ++ [CallGetAll User]))
        else (mkResponse 403 (JMessage "Forbidden"), w)
    | None => (mkResponse 403 (JMessage "Forbidden"), w)
    end.
Proof.
  unfold get_users. handler. destruct user as [u|]; [|done].
  by destruct (strict_eq _ _).
Qed.

Lemma patch_user_eq user id_param req_body now w :
  patch_user user id_param req_body now w =
    let id := parseInt id_param in
    let data := without_password req_body in
    let r := update User now id data (storage w) in
    let w1 := mkWorld r.2 (calls w ++ [CallUpdate User id data]) in
    match user with
    | Some u =>
        if strict_eq (prop u "role") (VStr "admin")
        then match r.1 with
             | Some x => (mkResponse 200 (JEntity (Some (without_password x))), w1)
             | None => (mkResponse 404 (JMessage "User not found"), w1)
             end
        else (mkResponse 403 (JMessage "Forbidden"), w)
    | None => (mkResponse 403 (JMessage "Forbidden"), w)
    end.
Proof.
  unfold patch_user. handler. destruct user as [u|]; [|done].
  destruct (strict_eq _ _); [|done].
  destruct (update User now (parseInt id_param) (without_password req_body) (storage w))
    as [[x|] st']; reflexivity.
Qed.

Lemma role_without_password (u u' : obj) :
  without_password u = without_password u' → prop u "role" = prop u' "role".
Proof.
  intros H. unfold prop.
  assert (without_password u !! "role" = without_password u' !! "role") as Hr
    by by rewrite H.
  unfold without_password in Hr. rewrite !lookup_delete_ne in Hr by done.
  by rewrite Hr.
Qed.

Lemma same_but_passwords_values m1 m2 :
  Forall2 same_but_password m1 m2 →
  map without_password (map_values m1) = map without_password (map_values m2).
Proof.
  induction 1 as [|[k1 x1] [k2 x2] m1 m2 [_ Hx] _ IH]; [done|].
  simpl in *. by rewrite Hx, IH.
Qed.

Lemma same_but_passwords_get id m1 m2 :
  Forall2 same_but_password m1 m2 →
  option_Forall2 (λ x y, without_password x = without_password y)
    (map_get id m1) (map_get id m2).
Proof.
  destruct id as [|z]; [rewrite !map_get_NaN; constructor|].
  induction 1 as [|[k1 x1] [k2 x2] m1 m2 [Hk Hx] _ IH]; [constructor|].
  simpl in *. subst k2. destruct (z =? k1); [by constructor | done].
Qed.

Lemma same_but_passwords_set (z : Z) x1 x2 m1 m2 :
  without_password x1 = without_password x2 →
  Forall2 same_but_password m1 m2 →
  Forall2 same_but_password (map_set z x1 m1) (map_set z x2 m2).
Proof.
  intros Hx. induction 1 as [|[k1 y1] [k2 y2] m1 m2 [Hk Hy] Hm IH]; simpl in *.
  - by repeat constructor.
  - subst k2. destruct (z =? k1); constructor; done.
Qed.

Lemma without_password_union (P x y : obj) :
  without_password x = without_password y →
  P !! "password" = None →
  without_password (P ∪ x) = without_password (P ∪ y).
Proof.
  intros Hxy HP. apply map_eq. intros f. unfold without_password in *.
  destruct (decide (f = "password")) as [->|Hf].
  - by rewrite !lookup_delete_eq.
  - rewrite !lookup_delete_ne by done.
    assert (x !! f = y !! f) as Hf'.
    { assert (delete "password" x !! f = delete "password" y !! f) as H by by rewrite Hxy.
      by rewrite !lookup_delete_ne in H by done. }
    destruct (P !! f) as [v|] eqn:HPf.
    + by rewrite !(lookup_union_l' _ _ f) by eauto.
    + by rewrite !lookup_union_r.
Qed.

Lemma update_user_same_but_passwords now id P st st' :
  P !! "password" = None →
  users_same_but_passwords st st' →
  option_Forall2 (λ x y, without_password x = without_password y)
    (update User now id P st).1 (update User now id P st').1
  ∧ users_same_but_passwords (update User now id P st).2 (update User now id P st').2.
Proof.
  intros HP Hst. unfold users_same_but_passwords in *.
  change (users ?s) with (coll User s) in *.
  pose proof (same_but_passwords_get id _ _ Hst) as Hget.
  fold (get User id st) in Hget. fold (get User id st') in Hget.
  destruct (get User id st) as [x0|] eqn:Hx, (get User id st') as [y0|] eqn:Hy;
    inversion Hget as [? ? Hxy|]; subst.
  - destruct (update_present User now id P x0 st Hx) as (z & -> & ->).
    destruct (update_present User now (Num z) P y0 st' Hy) as (z' & [= <-] & ->).
    cbn [fst snd merge]. rewrite !coll_with_coll. cbn [data].
    assert (without_password (P ∪ x0) = without_password (P ∪ y0)) as Hm
      by by apply without_password_union.
    split; [by constructor|]. by apply same_but_passwords_set.
  - rewrite !update_absent by done. split; [constructor | done].
Qed.

(** C2. The two responses that carry users, the list of [GET /api/users]
    and the result of [PATCH /api/users/:id], hold no user object with a
    [password] property. They do not depend on the stored passwords
    either: two runs whose stores (and session users) differ only in
    password values send the same response, and after the PATCH the two
    stores still differ only in password values. *)
Theorem user_responses_hide_password (user user' : option obj) (id_param : string)
    (req_body : obj) (now : Z) (w w' : World) :
  let listed := get_users user w in
  let patched := patch_user user id_param req_body now w in
  Forall (λ x, x !! "password" = None) (body_users (body listed.1))
  ∧ Forall (λ x, x !! "password" = None) (body_users (body patched.1))
  ∧ (without_password <$> user = without_password <$> user' →
     users_same_but_passwords (storage w) (storage w') →
     (get_users user' w').1 = listed.1
     ∧ (patch_user user' id_param req_body now w').1 = patched.1
     ∧ users_same_but_passwords (storage patched.2)
         (storage (patch_user user' id_param req_body now w').2)).
Proof.
  intros listed patched. unfold listed, patched.
  rewrite !get_users_eq, !patch_user_eq. cbv zeta. split_and!.
  - destruct user as [u|]; [|constructor].
    destruct (strict_eq _ _); [|constructor]. cbn [fst body body_users].
    apply Forall_forall. intros x Hx. apply list_elem_of_In, in_map_iff in Hx as (y & <- & _).
    apply without_password_lookup.
  - destruct user as [u|]; [|constructor].
    destruct (strict_eq _ _); [|constructor].
    destruct (update User now _ _ _).1; cbn [fst body body_users]; repeat constructor.
    apply without_password_lookup.
  - intros Huser Hst.
    destruct user as [u|], user' as [u'|]; try done.
    injection Huser as Hu. rewrite <-(role_without_password u u' Hu).
    destruct (strict_eq _ _); [|done].
    split_and!.
    + cbn [fst]. do 2 f_equal. symmetry. by apply same_but_passwords_values.
    + destruct (update_user_same_but_passwords now (parseInt id_param)
                  (without_password req_body) (storage w) (storage w')
                  (without_password_lookup _) Hst) as [Hr _].
      destruct Hr as [x y Hxy|]; cbn [fst]; [|done]. by rewrite Hxy.
    + destruct (update_user_same_but_passwords now (parseInt id_param)
                  (without_password req_body) (storage w) (storage w')
                  (without_password_lookup _) Hst) as [Hr Hs].
      destruct Hr; exact Hs.
Qed.

(** ** The count parameter of the upcoming-events route *)






















Section UpcomingRouteFacts.
Variable date_ms : value → number.


End UpcomingRouteFacts.

(** ** Site settings: upsert by key *)

Lemma strict_eq_true (a b : value) : strict_eq a b = true → a = b.
Proof.
  destruct a, b; simpl; try done.
  - intros H. f_equal. by apply Bool.eqb_prop.
  - intros H%Z.eqb_eq. by subst.
  - intros H%String.eqb_eq. by subst.
Qed.

Section MapSplit.
Context {V : Type}.
Implicit Types (m : list (Z * V)) (i : Z).

Lemma map_set_app_notin i x m1 m2 :
  i ∉ m1.*1 → map_set i x (m1 ++ m2) = m1 ++ map_set i x m2.
Proof.
  induction m1 as [|[j y] m1 IH]; csimpl; [done|].
  rewrite not_elem_of_cons. intros [Hne Hnin]. simpl.
  apply Z.eqb_neq in Hne as ->. by rewrite IH.
Qed.

Lemma map_get_app_notin i m1 m2 :
  i ∉ m1.*1 → map_get (Num i) (m1 ++ m2) = map_get (Num i) m2.
Proof.
  induction m1 as [|[j y] m1 IH]; csimpl; [done|].
  rewrite not_elem_of_cons. intros [Hne Hnin]. simpl.
  apply Z.eqb_neq in Hne as ->. by rewrite IH.
Qed.

Lemma map_split i x m :
  NoDup m.*1 → (i, x) ∈ m →
  ∃ m1 m2, m = m1 ++ (i, x) :: m2 ∧ (i ∉ m1.*1)
    ∧ map_get (Num i) m = Some x
    ∧ ∀ y, map_set i y m = m1 ++ (i, y) :: m2.
Proof.
  intros Hnd Hin. apply list_elem_of_split in Hin as (m1 & m2 & ->).
  rewrite fmap_app, fmap_cons in Hnd. apply NoDup_app in Hnd as (_ & Hnin & _).
  assert (i ∉ m1.*1) as Hi.
  { intros Hi. apply (Hnin i Hi). by left. }
  exists m1, m2. split_and!; [done..| |].
  - rewrite map_get_app_notin by done. simpl. by rewrite Z.eqb_refl.
  - intros y. rewrite map_set_app_notin by done. simpl. by rewrite Z.eqb_refl.
Qed.

Lemma map_set_absent i x m : i ∉ m.*1 → map_set i x m = m ++ [(i, x)].
Proof.
  intros Hi. rewrite <-(app_nil_r m) at 1. by rewrite map_set_app_notin.
Qed.
End MapSplit.

Lemma filter_length_split {A} (f : A → bool) l1 x l2 :
  length (List.filter f (l1 ++ x :: l2)) =
    (length (List.filter f l1) + (if f x then 1 else 0) + length (List.filter f l2))%nat.
Proof.
  rewrite List.filter_app, length_app. simpl. destruct (f x); simpl; lia.
Qed.

Lemma find_app_none {A} (f : A → bool) l1 l2 :
  List.filter f l1 = [] → find f (l1 ++ l2) = find f l2.
Proof.
  induction l1 as [|x l1 IH]; simpl; [done|].
  destruct (f x); [done | exact IH].
Qed.

Lemma find_None_filter {A} (f : A → bool) l : find f l = None → List.filter f l = [].
Proof.
  induction l as [|x l IH]; simpl; [done|].
  destruct (f x); [done | exact IH].
Qed.

Lemma settings_values st :
  getAll SiteSetting st = map snd (data (siteSettings st)).
Proof. reflexivity. Qed.

Lemma setting_fields_key key val u : prop (setting_fields key val u) "key" = key.
Proof. reflexivity. Qed.

Lemma merged_setting_props now e key val u :
  let s := merge SiteSetting now e (setting_fields key val u) in
  prop s "key" = key ∧ prop s "value" = val ∧ prop s "updatedBy" = prop u "id"
  ∧ prop s "updatedAt" = VDate now ∧ prop s "id" = prop e "id".
Proof.
  cbv zeta. unfold prop, merge.
  rewrite lookup_insert_eq, !lookup_insert_ne by done.
  rewrite (lookup_union_Some_l _ e "key" key) by reflexivity.
  rewrite (lookup_union_Some_l _ e "value" val) by reflexivity.
  rewrite (lookup_union_Some_l _ e "updatedBy" (prop u "id")) by reflexivity.
  rewrite (lookup_union_r _ e "id") by reflexivity.
  done.
Qed.

Lemma settings_ok_new : settings_ok new_MemStorage.
Proof.
  unfold settings_ok. simpl. split_and!.
  - constructor.
  - by intros i ?%elem_of_nil.
  - by intros i s ?%elem_of_nil.
  - intros key. unfold settings_with_key. simpl. lia.
Qed.

(** Updating the setting found for a key. *)
Lemma setting_update_ok st key val u now e :
  settings_ok st → getSiteSetting key st = Some e →
  let fields := setting_fields key val u in
  let r := updateSiteSetting now (as_number (prop e "id")) fields st in
  let s := merge SiteSetting now e fields in
  r.1 = Some s
  ∧ settings_ok r.2
  ∧ getSiteSetting key r.2 = Some s
  ∧ length (getAll SiteSetting r.2) = length (getAll SiteSetting st)
  ∧ (∀ k', k' ≠ SiteSetting → coll k' r.2 = coll k' st).
Proof.
  intros (Hnd & Hlt & Hid & Hone) Hfind fields r s.
  destruct (merged_setting_props now e key val u) as (Hk & Hv & Hby & Hat & Hsid).
  fold fields in Hk, Hv, Hby, Hat, Hsid. fold s in Hk, Hv, Hby, Hat, Hsid.
  unfold getSiteSetting in Hfind. pose proof Hfind as Hfind'.
  apply find_some in Hfind' as [Hin Hmatch].
  rewrite settings_values in Hin. apply in_map_iff in Hin as ([i e'] & He' & Hin).
  simpl in He'. subst e'. apply list_elem_of_In in Hin.
  pose proof (Hid i e Hin) as Hei.
  destruct (map_split i e _ Hnd Hin) as (m1 & m2 & Hm & Hi & Hget & Hset).
  assert (get SiteSetting (Num i) st = Some e) as Hget' by exact Hget.
  assert (r = (Some s, with_coll SiteSetting
                 (mkColl (m1 ++ (i, s) :: m2) (idCounter (siteSettings st))) st)) as Hr.
  { unfold r, updateSiteSetting. rewrite Hei. cbn [as_number].
    destruct (update_present SiteSetting now (Num i) fields e st Hget')
      as (z & [= <-] & ->).
    change (coll SiteSetting st) with (siteSettings st). by rewrite Hset. }
  assert (has_key key e = true → prop e "key" = key) as Hekey
    by apply strict_eq_true.
  specialize (Hekey Hmatch).
  assert (∀ q, has_key q s = has_key q e) as Hsame.
  { intros q. unfold has_key. by rewrite Hk, Hekey. }
  pose proof (Hone key) as Hone_key. unfold settings_with_key in Hone_key.
  rewrite settings_values, Hm, map_app, map_cons in Hone_key. cbn [snd] in Hone_key.
  rewrite filter_length_split, Hmatch in Hone_key.
  assert (List.filter (has_key key) (map snd m1) = []) as Hm1.
  { destruct (List.filter (has_key key) (map snd m1)); [done | simpl in *; lia]. }
  rewrite Hr. cbn [fst snd]. split_and!.
  - done.
  - unfold settings_ok. change (siteSettings ?x) with (coll SiteSetting x).
    rewrite coll_with_coll. cbn [data idCounter].
    change (coll SiteSetting st) with (siteSettings st).
    assert ((m1 ++ (i, s) :: m2).*1 = (data (siteSettings st)).*1) as Hkeys.
    { rewrite Hm. by rewrite !fmap_app, !fmap_cons. }
    rewrite Hkeys. split_and!; [done..| |].
    + intros j x Hx. apply elem_of_app in Hx as [Hx|Hx].
      { apply Hid. rewrite Hm. apply elem_of_app. by left. }
      apply elem_of_cons in Hx as [[= -> ->]|Hx].
      { by rewrite Hsid. }
      apply Hid. rewrite Hm. apply elem_of_app. right. by right.
    + intros q. specialize (Hone q). unfold settings_with_key in *.
      unfold getAll, map_values in *.
      change (coll SiteSetting ?x) with (siteSettings x) in *.
      change (siteSettings (with_coll SiteSetting ?c ?x)) with
        (coll SiteSetting (with_coll SiteSetting c x)).
      rewrite coll_with_coll. cbn [data]. rewrite Hm in Hone.
      rewrite map_app, map_cons in *. cbn [snd] in *.
      rewrite filter_length_split in *. by rewrite Hsame.
  - unfold getSiteSetting, getAll, map_values. rewrite coll_with_coll. cbn [data].
    rewrite map_app, map_cons. cbn [snd]. rewrite find_app_none by done.
    simpl. by rewrite Hsame, Hmatch.
  - unfold getAll, map_values. rewrite coll_with_coll. cbn [data].
    change (coll SiteSetting st) with (siteSettings st). rewrite Hm.
    by rewrite !length_map, !length_app.
  - intros k' Hk'. by apply coll_with_coll_ne.
Qed.

(** Creating a setting for a key that no record holds. *)
Lemma setting_create_ok st key val u now :
  settings_ok st → getSiteSetting key st = None →
  let fields := setting_fields key val u in
  let r := createSiteSetting now fields st in
  settings_ok r.2
  ∧ getAll SiteSetting r.2 = getAll SiteSetting st ++ [r.1]
  ∧ prop r.1 "key" = key ∧ prop r.1 "value" = val
  ∧ prop r.1 "updatedBy" = prop u "id" ∧ prop r.1 "updatedAt" = VDate now
  ∧ prop r.1 "id" = VNum (idCounter (siteSettings st))
  ∧ (∀ k', k' ≠ SiteSetting → coll k' r.2 = coll k' st).
Proof.
  intros (Hnd & Hlt & Hid & Hone) Hfind fields r.
  set (c := idCounter (siteSettings st)).
  set (s := <["updatedAt" := VDate now]> (<["id" := VNum c]> fields)).
  assert (c ∉ (data (siteSettings st)).*1) as Hc.
  { intros Hc%Hlt. unfold c in Hc. lia. }
  assert (r = (s, with_coll SiteSetting
                 (mkColl (data (siteSettings st) ++ [(c, s)]) (c + 1)) st)) as Hr.
  { unfold r, createSiteSetting, create. cbn [stamp].
    change (coll SiteSetting st) with (siteSettings st). fold c. fold s.
    by rewrite map_set_absent. }
  assert (prop s "key" = key) as Hk by reflexivity.
  rewrite Hr. cbn [fst snd]. split_and!; try reflexivity.
  - unfold settings_ok. change (siteSettings ?x) with (coll SiteSetting x).
    rewrite coll_with_coll. cbn [data idCounter].
    change (coll SiteSetting st) with (siteSettings st).
    rewrite fmap_app. csimpl. split_and!.
    + apply NoDup_app. split_and!; [done| |apply NoDup_singleton].
      intros j Hj ->%list_elem_of_singleton. done.
    + intros j [Hj| ->%list_elem_of_singleton]%elem_of_app; [|lia].
      apply Hlt in Hj. fold c in Hj. lia.
    + intros j x [Hx|[= -> ->]%list_elem_of_singleton]%elem_of_app; [by apply Hid|].
      reflexivity.
    + intros q. specialize (Hone q). unfold settings_with_key, getAll, map_values in *.
      change (coll SiteSetting ?x) with (siteSettings x) in *.
      change (siteSettings (with_coll SiteSetting ?c ?x)) with
        (coll SiteSetting (with_coll SiteSetting c x)).
      rewrite coll_with_coll. cbn [data]. rewrite map_app, List.filter_app, length_app.
      simpl. unfold has_key at 2. rewrite Hk.
      destruct (strict_eq key q) eqn:Hq; simpl; [|lia].
      apply strict_eq_true in Hq as <-.
      apply find_None_filter in Hfind. unfold getAll, map_values in Hfind.
      change (coll SiteSetting st) with (siteSettings st) in Hfind.
      rewrite Hfind. simpl. lia.
  - unfold getAll, map_values. rewrite coll_with_coll. cbn [data].
    by rewrite map_app.
  - intros k' Hk'. by apply coll_with_coll_ne.
Qed.

Lemma upsert_eq u key val now w :
  upsert u key val now w =
    let fields := setting_fields key val u in
    match getSiteSetting key (storage w) with
    | Some e =>
        let id := as_number (prop e "id") in
        let r := updateSiteSetting now id fields (storage w) in
        ((200, r.1),
         mkWorld r.2 (calls w ++ [CallGetSiteSetting key; CallUpdate SiteSetting id fields]))
    | None =>
        let r := createSiteSetting now fields (storage w) in
        ((201, Some r.1),
         mkWorld r.2 (calls w ++ [CallGetSiteSetting key; CallCreate SiteSetting fields]))
    end.
Proof.
  unfold upsert. handler. cbv zeta.
  destruct (getSiteSetting key (storage w)) as [e|]; handler.
  - destruct (updateSiteSetting now _ _ (storage w)). by rewrite <-app_assoc.
  - destruct (createSiteSetting now _ (storage w)). by rewrite <-app_assoc.
Qed.

Lemma upsert_ok u key val now w :
  settings_ok (storage w) →
  settings_ok (storage (upsert u key val now w).2)
  ∧ ∃ c, calls (upsert u key val now w).2 = calls w ++ [CallGetSiteSetting key; c]
      ∧ is_mutation c = true
      ∧ (c = CallCreate SiteSetting (setting_fields key val u)
         ∨ ∃ id, c = CallUpdate SiteSetting id (setting_fields key val u)).
Proof.
  intros Hok. rewrite upsert_eq. cbv zeta.
  destruct (getSiteSetting key (storage w)) as [e|] eqn:Hfind; cbn [fst snd storage calls].
  - destruct (setting_update_ok _ key val u now e Hok Hfind) as (_ & Hok' & _).
    split; [exact Hok'|]. eexists. split_and!; [done..|]. right. by eexists.
  - destruct (setting_create_ok _ key val u now Hok Hfind) as (Hok' & _).
    split; [exact Hok'|]. eexists. split_and!; [done..|]. by left.
Qed.

Lemma post_site_setting_eq u req_body now w :
  strict_eq (prop u "role") (VStr "admin") = true →
  truthy (prop req_body "key") = true →
  post_site_setting (Some u) req_body now w =
    let r := upsert u (prop req_body "key") (prop req_body "value") now w in
    (mkResponse r.1.1 (JEntity r.1.2), r.2).
Proof.
  intros Hadmin Hkey. unfold post_site_setting. handler. rewrite Hadmin, Hkey.
  cbn [negb]. handler. by destruct (upsert _ _ _ _ w) as [[] ?].
Qed.

Lemma post_site_setting_ok user req_body now w :
  settings_ok (storage w) →
  settings_ok (storage (post_site_setting user req_body now w).2).
Proof.
  intros Hok. destruct user as [u|]; [|done].
  destruct (strict_eq (prop u "role") (VStr "admin")) eqn:Hadmin.
  - destruct (truthy (prop req_body "key")) eqn:Hkey.
    + rewrite post_site_setting_eq by done. cbv zeta. cbn [snd].
      by apply upsert_ok.
    + unfold post_site_setting. handler. by rewrite Hadmin, Hkey.
  - unfold post_site_setting. handler. by rewrite Hadmin.
Qed.

Lemma batch_loop_cons u clock i item rest results w :
  nullish item = false →
  batch_loop u clock i (item :: rest) results w =
    if has_truthy_key item
    then let r := upsert u (get_prop item "key") (get_prop item "value") (clock i) w in
         batch_loop u clock (S i) rest (results ++ [r.1.2]) r.2
    else batch_loop u clock (S i) rest results w.
Proof.
  intros Hnn. unfold has_truthy_key.
  destruct item; try done; cbn [batch_loop];
    destruct (truthy _); cbn [negb]; try done;
    handler; by destruct (upsert _ _ _ _ w) as [[] ?].
Qed.

Lemma batch_loop_null u clock i item rest results w :
  nullish item = true →
  batch_loop u clock i (item :: rest) results w =
    (mkResponse 500 (JMessage "Error updating site settings"), w).
Proof. by destruct item. Qed.

Lemma batch_loop_ok u clock i items results w :
  settings_ok (storage w) →
  settings_ok (storage (batch_loop u clock i items results w).2).
Proof.
  revert i results w. induction items as [|item rest IH]; intros i results w Hok; [done|].
  destruct (nullish item) eqn:Hn.
  - by rewrite batch_loop_null.
  - rewrite batch_loop_cons by done. destruct (has_truthy_key item); [|by apply IH].
    cbv zeta. apply IH. by apply upsert_ok.
Qed.

Lemma post_batch_ok user req_body clock w :
  settings_ok (storage w) →
  settings_ok (storage (post_site_settings_batch user req_body clock w).2).
Proof.
  intros Hok. unfold post_site_settings_batch. handler.
  destruct user as [u|]; [|done].
  destruct (strict_eq _ _); [|done].
  destruct req_body; try done. by apply batch_loop_ok.
Qed.

Lemma serve_all_ok rs w :
  settings_ok (storage w) → settings_ok (storage (serve_all rs w)).
Proof.
  revert w. induction rs as [|r rs IH]; intros w Hok; [done|].
  simpl. apply IH. destruct r; simpl.
  - by apply post_site_setting_ok.
  - by apply post_batch_ok.
Qed.

(** The batch without a [null] item: one upsert per item that carries a
    key, on behalf of the acting principal, and their number as count. *)
Lemma batch_counts_keyed_items u clock i items results w :
  Forall (λ item, nullish item = false) items →
  let r := batch_loop u clock i items results w in
  r.1 = mkResponse 200 (JCount "Settings updated" (length results + length (keyed items)))
  ∧ ∃ new, calls r.2 = calls w ++ new
      ∧ Forall2 (upsert_call_of u) (keyed items) (List.filter is_mutation new).
Proof.
  intros Hitems. revert i results w.
  induction Hitems as [|item rest Hn _ IH]; intros i results w; cbv zeta.
  - split; [simpl; by rewrite Nat.add_0_r|]. exists []. split; [by rewrite app_nil_r|constructor].
  - rewrite batch_loop_cons by done. unfold keyed. cbn [List.filter].
    destruct (has_truthy_key item) eqn:Hkey.
    + cbv zeta. set (r := upsert u _ _ _ w).
      destruct (IH (S i) (results ++ [r.1.2]) r.2) as (Hresp & new & Hcalls & Hnew).
      split.
      { rewrite Hresp, length_app. simpl. unfold keyed.
        by rewrite <-Nat.add_assoc. }
      assert (∃ c, calls r.2 = calls w ++ [CallGetSiteSetting (get_prop item "key"); c]
                ∧ is_mutation c = true ∧ upsert_call_of u item c) as (c & Hc & Hmut & Hup).
      { unfold r. rewrite upsert_eq. cbv zeta.
        destruct (getSiteSetting _ (storage w)); cbn [snd calls]; eexists;
          (split_and!; [reflexivity | reflexivity |]).
        - right. by eexists.
        - by left. }
      exists ([CallGetSiteSetting (get_prop item "key"); c] ++ new). split.
      { by rewrite Hcalls, Hc, <-app_assoc. }
      cbn [app List.filter is_mutation]. rewrite Hmut. by constructor.
    + apply IH.
Qed.

Lemma find_filter_one {A} (f : A → bool) l x :
  find f l = Some x → (length (List.filter f l) ≤ 1)%nat → List.filter f l = [x].
Proof.
  induction l as [|y l IH]; simpl; [done|].
  destruct (f y); [|exact IH].
  intros [= ->] Hlen. simpl in Hlen.
  destruct (List.filter f l); [done | simpl in Hlen; lia].
Qed.

(** The list of settings before and after the update of the setting found
    for a key. *)
Lemma setting_update_values st key val u now e :
  settings_ok st → getSiteSetting key st = Some e →
  let fields := setting_fields key val u in
  let r := updateSiteSetting now (as_number (prop e "id")) fields st in
  ∃ l1 l2,
    getAll SiteSetting st = l1 ++ e :: l2
    ∧ getAll SiteSetting r.2 = l1 ++ merge SiteSetting now e fields :: l2
    ∧ prop e "key" = key.
Proof.
  intros (Hnd & Hlt & Hid & Hone) Hfind fields r.
  unfold getSiteSetting in Hfind. apply find_some in Hfind as [Hin Hmatch].
  rewrite settings_values in Hin. apply in_map_iff in Hin as ([i e'] & He' & Hin).
  simpl in He'. subst e'. apply list_elem_of_In in Hin.
  pose proof (Hid i e Hin) as Hei.
  destruct (map_split i e _ Hnd Hin) as (m1 & m2 & Hm & Hi & Hget & Hset).
  assert (get SiteSetting (Num i) st = Some e) as Hget' by exact Hget.
  exists (map snd m1), (map snd m2). split_and!.
  - rewrite settings_values, Hm. by rewrite map_app.
  - unfold r, updateSiteSetting. rewrite Hei. cbn [as_number].
    destruct (update_present SiteSetting now (Num i) fields e st Hget')
      as (z & [= <-] & ->).
    cbn [snd]. unfold getAll, map_values. rewrite coll_with_coll. cbn [data].
    change (coll SiteSetting st) with (siteSettings st). rewrite Hset.
    by rewrite map_app.
  - by apply strict_eq_true.
Qed.

Lemma strict_eq_refl (v : value) : primitive v → strict_eq v v = true.
Proof.
  destruct v; simpl; try done; intros _.
  - by destruct b.
  - apply Z.eqb_refl.
  - apply String.eqb_refl.
Qed.

Lemma strict_eq_same (a b : value) : strict_eq a b = true ↔ same_key a b.
Proof.
  split.
  - intros H. split; [|by apply strict_eq_true]. by destruct a, b.
  - intros [Hprim <-]. by apply strict_eq_refl.
Qed.

Lemma filter_one {A} (f : A → bool) (l : list A) (i : nat) (x : A) :
  l !! i = Some x → f x = true → (1 ≤ length (List.filter f l))%nat.
Proof.
  revert i. induction l as [|a l IH]; intros [|i]; simpl; try done.
  - intros [= ->] ->. simpl. lia.
  - intros Hx Hfx. specialize (IH i Hx Hfx). destruct (f a); simpl; lia.
Qed.

Lemma filter_two {A} (f : A → bool) (l : list A) (i j : nat) (x y : A) :
  l !! i = Some x → l !! j = Some y → i ≠ j → f x = true → f y = true →
  (2 ≤ length (List.filter f l))%nat.
Proof.
  revert i j. induction l as [|a l IH]; intros [|i] [|j]; simpl; try done.
  - intros [= ->] Hy _ -> Hfy. pose proof (filter_one f l j y Hy Hfy). simpl. lia.
  - intros Hx [= ->] _ Hfx ->. pose proof (filter_one f l i x Hx Hfx). simpl. lia.
  - intros Hx Hy Hij Hfx Hfy.
    assert (i ≠ j) as Hij' by congruence.
    specialize (IH i j Hx Hy Hij' Hfx Hfy). destruct (f a); simpl; lia.
Qed.

(** The invariant of the collection, read on the records. *)
Lemma settings_ok_keys_unique st :
  settings_ok st → keys_unique (map snd (data (siteSettings st))).
Proof.
  intros (_ & _ & _ & Hone) i j s1 s2 H1 H2 [Hprim Hsame].
  destruct (decide (i = j)) as [|Hij]; [done|]. exfalso.
  specialize (Hone (prop s1 "key")). unfold settings_with_key in Hone.
  rewrite settings_values in Hone.
  assert (has_key (prop s1 "key") s1 = true) as Hs1 by by apply strict_eq_refl.
  assert (has_key (prop s1 "key") s2 = true) as Hs2.
  { unfold has_key. rewrite <-Hsame. by apply strict_eq_refl. }
  pose proof (filter_two _ _ i j s1 s2 H1 H2 Hij Hs1 Hs2). lia.
Qed.

(** A record that holds the key is the one that the lookup by that key
    finds. *)
Lemma getSiteSetting_stored st key e :
  settings_ok st →
  e ∈ map snd (data (siteSettings st)) → same_key (prop e "key") key →
  getSiteSetting key st = Some e.
Proof.
  intros Hok Hin Hkey.
  assert (has_key key e = true) as Hmatch by by apply strict_eq_same.
  assert (In e (List.filter (has_key key) (map snd (data (siteSettings st))))) as He.
  { apply filter_In. split; [by apply list_elem_of_In|done]. }
  unfold getSiteSetting. rewrite settings_values.
  destruct (find (has_key key) (map snd (data (siteSettings st)))) as [e'|] eqn:Hfind.
  - destruct Hok as (_ & _ & _ & Hone). specialize (Hone key).
    unfold settings_with_key in Hone. rewrite settings_values in Hone.
    rewrite (find_filter_one _ _ _ Hfind Hone) in He. by destruct He as [->|[]].
  - apply find_None_filter in Hfind. rewrite Hfind in He. destruct He.
Qed.

(** No record holds the key: the lookup finds nothing. *)
Lemma getSiteSetting_new st key :
  (∀ e, e ∈ map snd (data (siteSettings st)) → ¬ same_key (prop e "key") key) →
  getSiteSetting key st = None.
Proof.
  intros Hnew. unfold getSiteSetting. rewrite settings_values.
  destruct (find _ _) as [e|] eqn:Hfind; [|done].
  apply find_some in Hfind as [Hin Hmatch%strict_eq_same].
  by apply list_elem_of_In, Hnew in Hin.
Qed.

(** The upsert on the records: what is sent, and the list of settings
    before and after. *)
Lemma upsert_values u key val now w :
  settings_ok (storage w) →
  let r := upsert u key val now w in
  let all := getAll SiteSetting (storage w) in
  let all' := getAll SiteSetting (storage r.2) in
  let posted (s : obj) :=
    prop s "key" = key ∧ prop s "value" = val
    ∧ prop s "updatedBy" = prop u "id" ∧ prop s "updatedAt" = VDate now in
  (∀ e, getSiteSetting key (storage w) = Some e →
     ∃ s l1 l2, r.1 = (200, Some s) ∧ posted s ∧ prop s "id" = prop e "id"
       ∧ all = l1 ++ e :: l2 ∧ all' = l1 ++ s :: l2)
  ∧ (getSiteSetting key (storage w) = None →
     ∃ s, r.1 = (201, Some s) ∧ posted s ∧ all' = all ++ [s]
       ∧ prop s "id" = VNum (idCounter (siteSettings (storage w)))).
Proof.
  intros Hok r all all' posted. unfold posted, all', all, r.
  rewrite upsert_eq. cbv zeta. split.
  - intros e Hfind. rewrite Hfind. cbn [fst snd storage].
    destruct (setting_update_ok _ key val u now e Hok Hfind) as (Hr & _).
    destruct (setting_update_values _ key val u now e Hok Hfind)
      as (l1 & l2 & Hbefore & Hafter & _).
    destruct (merged_setting_props now e key val u) as (Hk & Hv & Hby & Hat & Hid).
    eexists _, l1, l2. rewrite Hr. split_and!; [reflexivity|done..].
  - intros Hfind. rewrite Hfind. cbn [fst snd storage].
    destruct (setting_create_ok _ key val u now Hok Hfind)
      as (_ & Hall & Hk & Hv & Hby & Hat & Hid & _).
    eexists. split_and!; [reflexivity|done..].
Qed.

(** C4. After any sequence of requests to the two settings routes, and
    still after one more [POST /api/site-settings], no two stored settings
    hold the same key. The further POST, by an admin and with a key,
    behaves as follows. If a stored setting [e] holds the key, the answer
    is 200 with the updated record (the posted key and value, [updatedBy]
    the admin, fresh [updatedAt], the id of [e]), and the stored list is
    the former one with that record in the place of [e]. If no stored
    setting holds the key, the answer is 201 with a new record under an
    id of its own, and the stored list is the former one with that record
    added at the end. Either way the stored list then has a record with
    the posted key and value, and no other record holds that key. *)
Theorem settings_upsert_by_key (rs : list settings_request) (u req_body : obj) (now : Z) :
  let w := serve_all rs new_World in
  let key := prop req_body "key" in
  let val := prop req_body "value" in
  let r := post_site_setting (Some u) req_body now w in
  let all := map snd (data (siteSettings (storage w))) in
  let all' := map snd (data (siteSettings (storage r.2))) in
  let sent (code : Z) (s : obj) :=
    r.1 = mkResponse code (JEntity (Some s))
    ∧ prop s "key" = key ∧ prop s "value" = val
    ∧ prop s "updatedBy" = prop u "id" ∧ prop s "updatedAt" = VDate now in
  keys_unique all
  ∧ keys_unique all'
  ∧ (prop u "role" = VStr "admin" → truthy key = true →
     (∀ e, e ∈ all → same_key (prop e "key") key →
        ∃ s l1 l2, sent 200 s
          ∧ prop s "id" = prop e "id"
          ∧ all = l1 ++ e :: l2
          ∧ all' = l1 ++ s :: l2)
     ∧ ((∀ e, e ∈ all → ¬ same_key (prop e "key") key) →
        ∃ s, sent 201 s
          ∧ all' = all ++ [s]
          ∧ ∀ e, e ∈ all → prop e "id" ≠ prop s "id")
     ∧ (∃ i s, all' !! i = Some s ∧ prop s "key" = key ∧ prop s "value" = val
          ∧ ∀ j s', all' !! j = Some s' → same_key (prop s' "key") key → j = i)).
Proof.
  intros w key val r all all' sent.
  assert (settings_ok (storage w)) as Hok.
  { apply serve_all_ok, settings_ok_new. }
  assert (settings_ok (storage r.2)) as Hok' by by apply post_site_setting_ok.
  assert (keys_unique all') as Hunique by by apply settings_ok_keys_unique.
  split_and!; [by apply settings_ok_keys_unique | done |].
  intros Hadmin Hkey.
  assert (strict_eq (prop u "role") (VStr "admin") = true) as Hrole
    by by rewrite Hadmin.
  set (r' := upsert u key val now w).
  assert (r = (mkResponse r'.1.1 (JEntity r'.1.2), r'.2)) as Hr.
  { unfold r. by rewrite post_site_setting_eq. }
  assert (all' = getAll SiteSetting (storage r'.2)) as Hall'.
  { unfold all'. by rewrite Hr. }
  destruct (upsert_values u key val now w Hok) as [Hupdate Hcreate].
  fold r' in Hupdate, Hcreate. unfold sent. rewrite Hr. cbn [fst].
  clearbody all'. subst all'. clear Hr Hok'. clearbody r'.
  split_and!.
  - intros e Hin Hekey.
    pose proof (getSiteSetting_stored _ key e Hok Hin Hekey) as Hfind.
    destruct (Hupdate e Hfind) as (s & l1 & l2 & -> & (Hk & Hv & Hby & Hat) & Hid & ? & ?).
    by exists s, l1, l2.
  - intros Hnew. pose proof (getSiteSetting_new _ key Hnew) as Hfind.
    destruct (Hcreate Hfind) as (s & -> & (Hk & Hv & Hby & Hat) & Hall & Hid).
    exists s. split_and!; [done..|].
    intros e He Heid. rewrite Hid in Heid.
    destruct Hok as (_ & Hlt & Hids & _).
    apply list_elem_of_fmap in He as ([i e'] & -> & He). cbn [snd] in Heid.
    rewrite (Hids i e' He) in Heid. injection Heid as ->.
    assert (idCounter (siteSettings (storage w)) ∈ (data (siteSettings (storage w))).*1)
      as Hc%Hlt; [|lia].
    apply list_elem_of_fmap. by exists (idCounter (siteSettings (storage w)), e').
  - assert (∃ i s, getAll SiteSetting (storage r'.2) !! i = Some s
              ∧ prop s "key" = key ∧ prop s "value" = val) as (i & s & Hi & Hk & Hv).
    { destruct (getSiteSetting key (storage w)) as [e|] eqn:Hfind.
      - destruct (Hupdate e eq_refl) as (s & l1 & l2 & _ & (Hk & Hv & _) & _ & _ & ->).
        exists (length l1), s. split_and!; [|done..]. by apply list_lookup_middle.
      - destruct (Hcreate eq_refl) as (s & _ & (Hk & Hv & _) & -> & _).
        exists (length (getAll SiteSetting (storage w))), s.
        split_and!; [|done..]. by apply list_lookup_middle. }
    exists i, s. split_and!; [done..|].
    intros j s' Hj [Hprim Hk']. symmetry. apply (Hunique i j s s' Hi Hj).
    split; [|by rewrite Hk, Hk']. by rewrite Hk, <-Hk'.
Qed.

(** The example of the specification: [siteName] posted with value A, then
    with value B. *)
Example site_name_posted_twice :
  let first := post_site_setting (Some admin1) (setting_body "siteName" "A") 10 new_World in
  let second := post_site_setting (Some admin1) (setting_body "siteName" "B") 20 first.2 in
  status first.1 = 201 ∧ status second.1 = 200
  ∧ map (λ s, (prop s "id", prop s "key", prop s "value", prop s "updatedAt"))
      (getAll SiteSetting (storage second.2)) =
      [(VNum 1, VStr "siteName", VStr "B", VDate 20)].
Proof. vm_compute. done. Qed.

(** A body without a key, or with an empty one, is refused with 400 and
    nothing is stored. *)
Example setting_without_key :
  post_site_setting (Some admin1) {[ "value" := VStr "A" ]} 10 new_World =
    (mkResponse 400 (JMessage "Key is required"), new_World)
  ∧ post_site_setting (Some admin1) (setting_body "" "A") 10 new_World =
    (mkResponse 400 (JMessage "Key is required"), new_World).
Proof. vm_compute. done. Qed.

(** ** Site settings: the batch *)

Lemma post_batch_eq u items clock w :
  strict_eq (prop u "role") (VStr "admin") = true →
  post_site_settings_batch (Some u) (VArr items) clock w = batch_loop u clock 0 items [] w.
Proof. intros Hadmin. unfold post_site_settings_batch. handler. by rewrite Hadmin. Qed.

(** The batch as the specification describes it, for a body without
    [null] items. *)
Lemma batch_route_count u items clock w :
  strict_eq (prop u "role") (VStr "admin") = true →
  Forall (λ item, nullish item = false) items →
  let r := post_site_settings_batch (Some u) (VArr items) clock w in
  r.1 = mkResponse 200 (JCount "Settings updated" (length (keyed items)))
  ∧ ∃ new, calls r.2 = calls w ++ new
      ∧ Forall2 (upsert_call_of u) (keyed items) (List.filter is_mutation new).
Proof.
  intros Hadmin Hitems. cbv zeta. rewrite post_batch_eq by done.
  apply (batch_counts_keyed_items u clock 0 items [] w Hitems).
Qed.

Example batch_of_three :
  let items := [setting_item "a" "1"; setting_item "b" "2";
                VObj {[ "foo" := VStr "bad" ]}] in
  let r := post_site_settings_batch (Some admin1) (VArr items) no_clock new_World in
  r.1 = mkResponse 200 (JCount "Settings updated" 2)
  ∧ map (λ s, (prop s "key", prop s "value", prop s "updatedBy"))
      (getAll SiteSetting (storage r.2)) =
      [(VStr "a", VStr "1", VNum 1); (VStr "b", VStr "2", VNum 1)].
Proof. vm_compute. done. Qed.

(** A [null] item ends the batch with a 500: the items before it are
    stored, the items after it are not looked at. *)
Lemma batch_stops_at_null u clock i items rest results w :
  Forall (λ item, nullish item = false) items →
  batch_loop u clock i (items ++ VNull :: rest) results w =
    (mkResponse 500 (JMessage "Error updating site settings"),
     (batch_loop u clock i items results w).2).
Proof.
  intros Hitems. revert i results w.
  induction Hitems as [|item items Hn _ IH]; intros i results w; [done|].
  rewrite <-app_comm_cons, !batch_loop_cons by done.
  destruct (has_truthy_key item); [|apply IH]. cbv zeta. apply IH.
Qed.

(** C5, at the input on which the code departs from it: a batch with a
    [null] item between two well-formed ones. The handler answers 500
    instead of skipping the item and counting 2; the item before it has
    been stored, the item after it has not. *)
Theorem batch_null_item_answers_500 :
  let items := [setting_item "a" "1"; VNull; setting_item "b" "2"] in
  let r := post_site_settings_batch (Some admin1) (VArr items) no_clock new_World in
  length (keyed items) = 2%nat
  ∧ r.1 = mkResponse 500 (JMessage "Error updating site settings")
  ∧ map (λ s, prop s "key") (getAll SiteSetting (storage r.2)) = [VStr "a"].
Proof. vm_compute. done. Qed.

(** * The properties on sample data *)

Lemma owner_gate_witness :
  let w := mkWorld one_event [] in
  status (patch_owned Event (Some member8) "1" takeover 0 w).1 = 403
  ∧ status (delete_owned Event (Some member8) "1" w).1 = 403
  ∧ storage (patch_owned Event (Some member8) "1" takeover 0 w).2 = one_event
  ∧ status (patch_owned Event (Some member8) "2" takeover 0 w).1 = 404
  ∧ status (delete_owned Event (Some member8) "2" w).1 = 404.
Proof.
  intros w.
  destruct (owner_gate Event member8 "1" takeover 0 w) as [_ H].
  destruct (H _ eq_refl eq_refl eq_refl) as [(Hp & _ & Hs & _) (Hd & _)].
  destruct (owner_gate Event member8 "2" takeover 0 w) as [H2 _].
  destruct (H2 eq_refl) as [(Hp2 & _) (Hd2 & _)].
  exact (conj Hp (conj Hd (conj Hs (conj Hp2 Hd2)))).
Defined.

Lemma user_responses_hide_password_witness :
  let w := mkWorld (two_users "hash1" "hash7") [] in
  let w' := mkWorld (two_users "other1" "other7") [] in
  let rename : obj := {[ "name" := VStr "Ana"; "password" := VStr "new" ]} in
  (get_users (Some admin1) w').1 = (get_users (Some admin1) w).1
  ∧ (patch_user (Some admin1) "2" rename 0 w').1 = (patch_user (Some admin1) "2" rename 0 w).1.
Proof.
  intros w w' rename.
  assert (users_same_but_passwords (storage w) (storage w')) as Hsame.
  { repeat (constructor; [split; reflexivity|]). constructor. }
  destruct (user_responses_hide_password (Some admin1) (Some admin1) "2" rename 0 w w')
    as (_ & _ & H).
  destruct (H eq_refl Hsame) as (Hl & Hp & _).
  exact (conj Hl Hp).
Defined.

Lemma update_frame_witness :
  ∃ r, (update Event 0 (Num 1) {[ "title" := VStr "Evening" ]} one_event).1 = Some r
    ∧ r !! "title" = Some (VStr "Evening")
    ∧ r !! "location" = Some (VStr "Hall")
    ∧ r !! "id" = Some (VNum 1)
    ∧ r !! "createdAt" = Some (VDate 1000).
Proof.
  destruct (update_frame Event 0 (Num 1) {[ "title" := VStr "Evening" ]} _ one_event eq_refl)
    as (r & Hr & _ & Hom & Hsup & Hid & Hcr & _).
  exists r. split; [exact Hr|].
  split; [exact (Hsup "title" _ eq_refl ltac:(discriminate))|].
  split; [exact (Hom "location" eq_refl ltac:(discriminate))|].
  split; [exact (Hid eq_refl) | exact (Hcr eq_refl)].
Defined.

(** C3 as stated fails: a partial update that names [id] changes the id
    of the record. *)
Lemma update_changes_supplied_id :
  ¬ (∀ (k : kind) (now : Z) (id : number) (P E r : obj) (st : MemStorage),
       get k id st = Some E → (update k now id P st).1 = Some r →
       r !! "id" = E !! "id" ∧ r !! "createdAt" = E !! "createdAt").
Proof.
  intros H.
  destruct (H Event 0 (Num 1) {[ "id" := VNum 99 ]} _ _ one_event eq_refl eq_refl)
    as [Hid _].
  vm_compute in Hid. discriminate Hid.
Qed.

Lemma settings_upsert_by_key_witness :
  let w := serve_all [PostSetting (Some admin1) (setting_body "siteName" "A") 10] new_World in
  let again := post_site_setting (Some admin1) (setting_body "siteName" "B") 20 w in
  let other := post_site_setting (Some admin1) (setting_body "logoUrl" "x") 20 w in
  (∃ s l1 l2, again.1 = mkResponse 200 (JEntity (Some s))
     ∧ prop s "value" = VStr "B"
     ∧ prop s "id" = VNum 1
     ∧ map snd (data (siteSettings (storage again.2))) = l1 ++ s :: l2
     ∧ length (l1 ++ s :: l2) = 1%nat)
  ∧ (∃ s, other.1 = mkResponse 201 (JEntity (Some s))
       ∧ prop s "key" = VStr "logoUrl"
       ∧ map snd (data (siteSettings (storage other.2))) =
           map snd (data (siteSettings (storage w))) ++ [s]).
Proof.
  intros w again other. split.
  - destruct (settings_upsert_by_key
                [PostSetting (Some admin1) (setting_body "siteName" "A") 10]
                admin1 (setting_body "siteName" "B") 20) as (_ & _ & H).
    destruct (H eq_refl eq_refl) as (Hupdate & _ & _).
    assert (site_name_A ∈ map snd (data (siteSettings (storage w)))) as Hin.
    { vm_compute. apply list_elem_of_here. }
    destruct (Hupdate site_name_A Hin (conj I eq_refl))
      as (s & l1 & l2 & (Hr & _ & Hv & _) & Hid & Hbefore & Hafter).
    exists s, l1, l2. split_and!; [exact Hr | exact Hv | exact Hid | exact Hafter |].
    apply (f_equal length) in Hbefore. rewrite !length_app in *. exact (eq_sym Hbefore).
  - destruct (settings_upsert_by_key
                [PostSetting (Some admin1) (setting_body "siteName" "A") 10]
                admin1 (setting_body "logoUrl" "x") 20) as (_ & _ & H).
    destruct (H eq_refl eq_refl) as (_ & Hcreate & _).
    destruct Hcreate as (s & (Hr & Hk & _) & Hafter & _).
    { intros e He [_ Hsame]. apply list_elem_of_In in He. vm_compute in He.
      destruct He as [<-|[]]. vm_compute in Hsame. discriminate Hsame. }
    exists s. split_and!; [exact Hr | exact Hk | exact Hafter].
Defined.

(** With a setting for [siteName] in store, a POST with another key
    creates a second record and answers 201. *)
Example setting_with_new_key :
  let w := serve_all [PostSetting (Some admin1) (setting_body "siteName" "A") 10] new_World in
  let r := post_site_setting (Some admin1) (setting_body "logoUrl" "x") 20 w in
  status r.1 = 201
  ∧ map (λ s, (prop s "id", prop s "key", prop s "value"))
      (getAll SiteSetting (storage r.2)) =
      [(VNum 1, VStr "siteName", VStr "A"); (VNum 2, VStr "logoUrl", VStr "x")].
Proof. vm_compute. done. Qed.

(** The route does not check that the key is text. A key sent as an
    array is compared by reference, is the same as no stored key, and
    every POST of it creates a record. *)
Example setting_with_array_key :
  let b : obj := {[ "key" := VArr [VStr "siteName"]; "value" := VStr "A" ]} in
  let first := post_site_setting (Some admin1) b 10 new_World in
  let second := post_site_setting (Some admin1) b 20 first.2 in
  status first.1 = 201 ∧ status second.1 = 201
  ∧ map (λ s, (prop s "id", prop s "key")) (getAll SiteSetting (storage second.2)) =
      [(VNum 1, VArr [VStr "siteName"]); (VNum 2, VArr [VStr "siteName"])].
Proof. vm_compute. done. Qed.

Lemma upcoming_events_first_count_witness :
  let r := getUpcomingEvents sample_date 10000 (Some (Num 3)) calendar in
  (∀ e, e ∈ r → ∃ t, sample_date (prop e "startTime") = Num t ∧ 10000 < t)
  ∧ StronglySorted (time_le sample_date) r
  ∧ length r = 3%nat
  ∧ r ≡ₚ upcoming sample_date 10000 calendar.
Proof.
  intros r.
  destruct (upcoming_events_first_count sample_date 10000 (Some (Num 3)) 3 calendar
              eq_refl ltac:(lia)) as (Hin & Hs & Hl & _ & Hall & _).
  split; [intros e He; exact (proj2 (Hin e He))|].
  split; [exact Hs|]. split; [exact Hl|].
  apply Hall. vm_compute. discriminate.
Defined.

(** Events are chosen and ordered by their start, not by their end: of
    five events that all end after [now = 10000], the one that started at
    6400 and the one that starts at 10000 sharp are left out, and the
    others come in the order of their start times. *)
Example upcoming_by_start :
  map (λ e, (prop e "startTime", prop e "endTime"))
    (getUpcomingEvents sample_date 10000 None calendar) =
    [(VDate 13600, VDate 50000); (VDate 17200, VDate 40000); (VDate 20800, VDate 21000)].
Proof. vm_compute. done. Qed.

(** The example of the specification: start times one, three and two hours
    ahead and one hour back; the three future events come back in order. *)
Example upcoming_three_of_four :
  map (λ e, prop e "startTime")
    (getUpcomingEvents sample_date 10000 (Some (Num 3)) four_events) =
    [VDate 13600; VDate 17200; VDate 20800].
Proof. vm_compute. done. Qed.

(** A negative count is outside C7: [slice(0, -1)] leaves out the last
    element instead of taking a prefix of that length. *)
Example upcoming_negative_count :
  map (λ e, prop e "startTime")
    (getUpcomingEvents sample_date 10000 (Some (Num (-1))) four_events) =
    [VDate 13600; VDate 17200].
Proof. vm_compute. done. Qed.

Lemma patch_overwrites_witness :
  let r := patch_owned Event (Some member7) "1" takeover 0 (mkWorld one_event []) in
  ∃ stored, get Event (Num 1) (storage r.2) = Some stored
    ∧ prop stored "createdBy" = VNum 8
    ∧ prop stored "id" = VNum 99.
Proof.
  intros r.
  destruct (patch_overwrites Event member7 "1" takeover _ 0 (mkWorld one_event [])
              eq_refl (or_introl eq_refl)) as (_ & _ & Hget & _ & Howner & Hid & _).
  eexists. split; [exact Hget|].
  split; [exact (Howner _ eq_refl) | exact (Hid _ eq_refl)].
Defined.

(** After that PATCH the event has changed hands: its former owner is
    turned away, the new owner is let in, and the record, still under map
    key 1, says that its id is 99. *)
Example ownership_transferred :
  let w := (patch_owned Event (Some member7) "1" takeover 0 (mkWorld one_event [])).2 in
  status (patch_owned Event (Some member7) "1" ∅ 0 w).1 = 403
  ∧ status (patch_owned Event (Some member8) "1" ∅ 0 w).1 = 200
  ∧ (λ e, prop e "id") <$> get Event (Num 1) (storage w) = Some (VNum 99)
  ∧ get Event (Num 99) (storage w) = None.
Proof. vm_compute. done. Qed.


Example parseInt_examples :
  parseInt "12" = Num 12 ∧ parseInt "  -7px" = Num (-7) ∧ parseInt "0x1F" = Num 31
  ∧ parseInt "abc" = NaN ∧ parseInt "" = NaN ∧ parseInt "-" = NaN
  ∧ parseInt "+ 5" = NaN ∧ parseInt "0x" = NaN.
Proof. vm_compute. done. Qed.

(** A hexadecimal prefix that no hexadecimal digit follows is no number
    either. *)
Example hex_prefix_alone : non_numeric "  -0xg" ∧ parseInt "  -0xg" = NaN.
Proof.
  split; [|reflexivity].
  do 2 (apply (non_numeric_space " "); [vm_compute; repeat constructor|]).
  apply (non_numeric_signed "-" "0xg"); [vm_compute; repeat constructor|].
  apply (no_hex_digit "0x" "g"); [vm_compute; repeat constructor | reflexivity].
Qed.

(** White space beyond ASCII is skipped as well. *)
Example parseInt_unicode_space :
  parseInt (nbsp "5") = Num 5
  ∧ parseInt (byte_order_mark (ideographic_space "-3")) = Num (-3)
  ∧ parseInt (nbsp " x") = NaN.
Proof. vm_compute. done. Qed.

(** A count written after a no-break space is a number, and that many
    events are sent. *)
Example upcoming_count_after_nbsp :
  let r := get_upcoming sample_date (Some (nbsp "2")) 10000 (mkWorld four_events []) in
  status r.1 = 200
  ∧ map (λ e, prop e "startTime") (body_users (body r.1)) = [VDate 13600; VDate 17200].
Proof. vm_compute. done. Qed.

(** * The rest of the repository *)

(** ** Keys and counters *)

Lemma filter_keys {V} (f : Z → bool) (m : list (Z * V)) :
  (List.filter (λ e, f e.1) m).*1 = List.filter f m.*1.
Proof.
  induction m as [|[i x] m IH]; [done|]. csimpl. cbn [List.filter fst].
  destruct (f i); csimpl; by rewrite IH.
Qed.

Lemma elem_of_list_filter {A} (f : A → bool) (l : list A) x :
  x ∈ List.filter f l ↔ x ∈ l ∧ f x = true.
Proof. rewrite !list_elem_of_In. apply filter_In. Qed.

Lemma NoDup_list_filter {A} (f : A → bool) (l : list A) :
  NoDup l → NoDup (List.filter f l).
Proof.
  induction 1 as [|x l Hx Hl IH]; simpl; [constructor|].
  destruct (f x); [|done]. constructor; [|done].
  rewrite elem_of_list_filter. tauto.
Qed.

Lemma map_get_key {V} (n : number) (v : V) (m : list (Z * V)) :
  map_get n m = Some v → ∃ z, n = Num z ∧ z ∈ m.*1.
Proof.
  intros (z & -> & Hin)%map_get_Some_elem. exists z. split; [done|].
  apply list_elem_of_fmap. by exists (z, v).
Qed.

Lemma update_keys k now id P st k' :
  (data (coll k' (update k now id P st).2)).*1 = (data (coll k' st)).*1.
Proof.
  destruct (get k id st) as [E|] eqn:H; [|by rewrite update_absent].
  destruct (update_present k now id P E st H) as (z & -> & ->). cbn [snd].
  destruct (decide (k' = k)) as [->|Hk]; [|by rewrite coll_with_coll_ne].
  rewrite coll_with_coll. cbn [data]. apply map_set_keys_present.
  by destruct (map_get_key _ _ _ H) as (z' & [= <-] & ?).
Qed.

Lemma delete_keys o id st k' :
  (data (coll k' (delete_ o id st).2)).*1 =
    if decide (k' = Owned o)
    then List.filter (λ i, negb (is_key id i)) (data (coll k' st)).*1
    else (data (coll k' st)).*1.
Proof.
  unfold delete_, map_delete. cbn [snd]. case_decide as Hk.
  - subst. rewrite coll_with_coll. cbn [data].
    apply (filter_keys (λ i, negb (is_key id i))).
  - by rewrite coll_with_coll_ne.
Qed.

Lemma keys_ok_new : keys_ok new_MemStorage.
Proof.
  intros k. destruct k as [|[]|];
    (split_and!; [done | constructor | by intros i ?%elem_of_nil]).
Qed.

Lemma keys_ok_create k now fields st : keys_ok st → keys_ok (create k now fields st).2.
Proof.
  intros Hok k'. unfold create. cbn [snd].
  destruct (decide (k' = k)) as [->|Hk]; [|rewrite coll_with_coll_ne by done; apply Hok].
  rewrite coll_with_coll. destruct (Hok k) as (Hpos & Hnd & Hlt).
  assert (idCounter (coll k st) ∉ (data (coll k st)).*1) as Hfresh.
  { intros Hin%Hlt. lia. }
  split_and!; cbn [data idCounter]; [lia|..]; rewrite map_set_keys_absent by done.
  - apply NoDup_app. split_and!; [done| |apply NoDup_singleton].
    intros i Hi ->%list_elem_of_singleton. done.
  - intros i [Hi| ->%list_elem_of_singleton]%elem_of_app; [|lia].
    apply Hlt in Hi. lia.
Qed.

Lemma keys_ok_update k now id P st : keys_ok st → keys_ok (update k now id P st).2.
Proof.
  intros Hok k'. destruct (Hok k') as (Hpos & Hnd & Hlt).
  unfold coll_ok. rewrite update_keys, update_counter. done.
Qed.

Lemma keys_ok_delete o id st : keys_ok st → keys_ok (delete_ o id st).2.
Proof.
  intros Hok k'. destruct (Hok k') as (Hpos & Hnd & Hlt).
  unfold coll_ok. rewrite delete_keys, delete_counter. case_decide; [|done].
  split_and!; [done|by apply NoDup_list_filter|].
  intros i [Hi _]%elem_of_list_filter. by apply Hlt.
Qed.

Lemma keys_ok_run ops st : keys_ok st → keys_ok (run ops st).2.
Proof.
  revert st. induction ops as [|op ops IH]; intros st Hok; [done|].
  rewrite run_cons. cbn [snd]. apply IH.
  destruct op as [k now fields|k now id fields|o id].
  - rewrite step_create. cbn [snd]. by apply keys_ok_create.
  - cbn [step snd]. by apply keys_ok_update.
  - cbn [step snd]. by apply keys_ok_delete.
Qed.

Lemma run_counter k ops st :
  idCounter (coll k (run ops st).2) = idCounter (coll k st) + Z.of_nat (creates k ops).
Proof.
  revert st. induction ops as [|op ops IH]; intros st; [unfold creates; simpl; lia|].
  rewrite run_cons. cbn [snd]. rewrite IH. unfold creates. cbn [List.filter].
  destruct op as [k' now fields|k' now id fields|o id].
  - rewrite step_create. cbn [snd is_create_of]. rewrite create_counter.
    destruct (kind_eqb k k') eqn:Hk.
    + apply kind_eqb_eq in Hk as <-. rewrite decide_True by done. cbn [length]. lia.
    + rewrite decide_False; [done|]. intros ->. destruct k' as [|[]|]; done.
  - cbn [step snd is_create_of]. by rewrite update_counter.
  - cbn [step snd is_create_of]. by rewrite delete_counter.
Qed.

(** X1. In every store that a sequence of creates, updates and deletes
    builds from a fresh one, the keys of each collection are pairwise
    distinct, positive and below the collection's counter; the counter is
    one more than the number of creates so far, which also bounds the
    number of records. *)
Theorem run_keeps_keys_fresh (ops : list storage_op) (k : kind) :
  let c := coll k (run ops new_MemStorage).2 in
  NoDup (data c).*1
  ∧ (∀ i, i ∈ (data c).*1 → 0 < i < idCounter c)
  ∧ idCounter c = 1 + Z.of_nat (creates k ops)
  ∧ (length (getAll k (run ops new_MemStorage).2) ≤ creates k ops)%nat.
Proof.
  intros c. destruct (keys_ok_run ops new_MemStorage keys_ok_new k) as (Hpos & Hnd & Hlt).
  fold c in Hpos, Hnd, Hlt.
  assert (idCounter c = 1 + Z.of_nat (creates k ops)) as Hc.
  { unfold c. rewrite run_counter. by destruct k as [|[]|]. }
  split_and!; [done..|].
  unfold getAll, map_values. fold c. rewrite length_map, <-(length_fmap fst).
  assert ((data c).*1 ⊆+ seqZ 1 (Z.of_nat (creates k ops))) as Hsub.
  { apply NoDup_submseteq; [done|]. intros i Hi%Hlt. apply elem_of_seqZ. lia. }
  apply submseteq_length in Hsub. rewrite length_seqZ in Hsub. lia.
Qed.

(** ** create, update and delete on a well-keyed store *)

Lemma getAll_create k now fields st :
  keys_ok st →
  getAll k (create k now fields st).2 = getAll k st ++ [(create k now fields st).1].
Proof.
  intros Hok. destruct (Hok k) as (_ & _ & Hlt).
  unfold create, getAll, map_values. cbn [fst snd]. rewrite coll_with_coll. cbn [data].
  rewrite map_set_absent; [by rewrite map_app|].
  intros Hin%Hlt. lia.
Qed.

Lemma create_coll_other k now fields st k' :
  k' ≠ k → coll k' (create k now fields st).2 = coll k' st.
Proof. intros Hk. unfold create. cbn [snd]. by rewrite coll_with_coll_ne. Qed.

Lemma update_coll_other k now id P st k' :
  k' ≠ k → coll k' (update k now id P st).2 = coll k' st.
Proof.
  intros Hk. destruct (get k id st) as [E|] eqn:H; [|by rewrite update_absent].
  destruct (update_present k now id P E st H) as (z & -> & ->). cbn [snd].
  by rewrite coll_with_coll_ne.
Qed.

Lemma delete_coll_other o id st k' :
  k' ≠ Owned o → coll k' (delete_ o id st).2 = coll k' st.
Proof. intros Hk. unfold delete_, map_delete. cbn [snd]. by rewrite coll_with_coll_ne. Qed.

Lemma create_fresh k st : keys_ok st → get k (Num (idCounter (coll k st))) st = None.
Proof.
  intros Hok. destruct (Hok k) as (_ & _ & Hlt).
  unfold get. apply map_get_None_keys. intros Hin%Hlt. lia.
Qed.

Lemma create_stored k now fields st :
  get k (Num (idCounter (coll k st))) (create k now fields st).2 =
    Some (create k now fields st).1.
Proof.
  unfold create, get. cbn [fst snd]. rewrite coll_with_coll. cbn [data].
  apply map_get_set_eq.
Qed.

Lemma create_stamp k now fields st :
  prop (create k now fields st).1 (stamp k) = VDate now.
Proof. unfold create, prop. cbn [fst]. by rewrite lookup_insert_eq. Qed.

(** X2. [create] on a well-keyed store. The record returned carries the
    collection's counter as [id] and the clock reading as its timestamp,
    whatever the caller put under those two names, and every other field
    as supplied. It is stored under that id at the end of the collection,
    and nothing that could be looked up before is lost or changed. *)
Theorem create_contract (k : kind) (now : Z) (fields : obj) (st : MemStorage) :
  keys_ok st →
  let r := create k now fields st in
  let id := idCounter (coll k st) in
  r.1 !! "id" = Some (VNum id)
  ∧ r.1 !! stamp k = Some (VDate now)
  ∧ (∀ f, f ≠ "id" → f ≠ stamp k → r.1 !! f = fields !! f)
  ∧ get k (Num id) st = None
  ∧ get k (Num id) r.2 = Some r.1
  ∧ getAll k r.2 = getAll k st ++ [r.1]
  ∧ (∀ k' id' x, get k' id' st = Some x → get k' id' r.2 = Some x)
  ∧ (∀ k', k' ≠ k → getAll k' r.2 = getAll k' st)
  ∧ keys_ok r.2.
Proof.
  intros Hok r id. destruct (Hok k) as (_ & _ & Hlt).
  assert (get k (Num id) st = None) as Hfresh.
  { unfold get. apply map_get_None_keys. intros Hin%Hlt. unfold id in Hin. lia. }
  split_and!.
  - unfold r, create. cbn [fst]. rewrite lookup_insert_ne by (by destruct k).
    apply lookup_insert_eq.
  - unfold r, create. cbn [fst]. apply lookup_insert_eq.
  - intros f Hid Hstamp. unfold r, create. cbn [fst].
    by rewrite !lookup_insert_ne.
  - done.
  - unfold r, create, get. cbn [fst snd]. rewrite coll_with_coll. cbn [data].
    apply map_get_set_eq.
  - by apply getAll_create.
  - intros k' id' x Hx. unfold r, create. cbn [snd].
    destruct (decide (k' = k)) as [->|Hk]; [|by rewrite get_with_coll_ne].
    unfold get. rewrite coll_with_coll. cbn [data].
    rewrite map_get_set_ne; [done|]. intros ->. unfold id in Hfresh. congruence.
  - intros k' Hk. unfold r, getAll. by rewrite create_coll_other.
  - by apply keys_ok_create.
Qed.

(** X3. [update] neither adds nor removes a record: in every collection
    the list of keys, their order and the counter are as before, whether
    the id exists or not; and when it does not exist (or is [NaN]) the
    result is [undefined] and the store is untouched. *)
Theorem update_keeps_keys (k : kind) (now : Z) (id : number) (P : obj) (st : MemStorage) :
  let r := update k now id P st in
  (∀ k', (data (coll k' r.2)).*1 = (data (coll k' st)).*1
         ∧ idCounter (coll k' r.2) = idCounter (coll k' st)
         ∧ length (getAll k' r.2) = length (getAll k' st))
  ∧ (∀ k', k' ≠ k → coll k' r.2 = coll k' st)
  ∧ (get k id st = None → r = (None, st))
  ∧ (id = NaN → r = (None, st))
  ∧ (r.1 = None ↔ get k id st = None).
Proof.
  intros r. subst r. split_and!.
  - intros k'. split_and!.
    + apply update_keys.
    + apply update_counter.
    + unfold getAll, map_values. rewrite !length_map.
      rewrite <-!(length_fmap fst). by rewrite update_keys.
  - intros k' Hk. by apply update_coll_other.
  - apply update_absent.
  - intros ->. apply update_absent. unfold get. apply map_get_NaN.
  - destruct (get k id st) as [E|] eqn:H.
    + destruct (update_present k now id P E st H) as (z & -> & ->). by split.
    + by rewrite update_absent.
Qed.

Lemma filter_other_keys {V} (z : Z) (m : list (Z * V)) :
  z ∉ m.*1 → List.filter (λ e, negb (is_key (Num z) e.1)) m = m.
Proof.
  induction m as [|[i y] m IH]; [done|]. csimpl. rewrite not_elem_of_cons.
  intros [Hne Hnin]. cbn [List.filter fst is_key].
  apply Z.eqb_neq in Hne as ->. cbn [negb]. f_equal. by apply IH.
Qed.

Lemma filter_drop_key {V} (z : Z) (x : V) (m : list (Z * V)) :
  List.filter (λ e, negb (is_key (Num z) e.1)) ((z, x) :: m) =
    List.filter (λ e, negb (is_key (Num z) e.1)) m.
Proof. cbn [List.filter fst is_key]. by rewrite Z.eqb_refl. Qed.

(** X4. [delete] on a well-keyed store removes exactly the record stored
    under the id: the records before it and after it stay, in their
    order, and the store stays well-keyed. The counter does not move, so
    the next create does not hand the id out again. *)
Theorem delete_removes_exactly_one (o : owned) (id : number) (x : obj) (st : MemStorage) :
  keys_ok st → get o id st = Some x →
  let r := delete_ o id st in
  r.1 = true
  ∧ (∃ before after,
       getAll o st = before ++ x :: after ∧ getAll o r.2 = before ++ after)
  ∧ length (getAll o r.2) = Nat.pred (length (getAll o st))
  ∧ (∀ k', k' ≠ Owned o → coll k' r.2 = coll k' st)
  ∧ idCounter (coll o r.2) = idCounter (coll o st)
  ∧ keys_ok r.2
  ∧ (∃ z, id = Num z ∧ ∀ now fields, prop (create o now fields r.2).1 "id" ≠ VNum z).
Proof.
  intros Hok Hget r. destruct (Hok o) as (_ & Hnd & Hlt).
  pose proof Hget as Hget'. unfold get in Hget'.
  apply map_get_Some_elem in Hget' as (z & -> & Hin).
  destruct (map_split z x _ Hnd Hin) as (m1 & m2 & Hm & Hz1 & _ & _).
  assert (z ∉ m2.*1) as Hz2.
  { rewrite Hm, fmap_app, fmap_cons in Hnd. apply NoDup_app in Hnd as (_ & _ & Hnd).
    by apply NoDup_cons in Hnd as [? _]. }
  assert (getAll o r.2 = map snd m1 ++ map snd m2) as Hafter.
  { unfold r, delete_, map_delete, getAll, map_values. cbn [snd].
    rewrite coll_with_coll. cbn [data]. rewrite Hm, List.filter_app.
    rewrite filter_drop_key, !filter_other_keys by done. by rewrite map_app. }
  assert (getAll o st = map snd m1 ++ x :: map snd m2) as Hbefore.
  { unfold getAll, map_values. rewrite Hm. by rewrite map_app. }
  split_and!.
  - by apply delete_found.
  - by exists (map snd m1), (map snd m2).
  - rewrite Hafter, Hbefore, !length_app. simpl. lia.
  - intros k' Hk. by apply delete_coll_other.
  - apply delete_counter.
  - by apply keys_ok_delete.
  - exists z. split; [done|]. intros now fields. rewrite create_id.
    unfold r. rewrite delete_counter. intros [= Heq].
    assert (z ∈ (data (coll o st)).*1) as Hzin.
    { apply list_elem_of_fmap. by exists (z, x). }
    apply Hlt in Hzin. lia.
Qed.

(** ** Users by name, replies by topic *)

Lemma find_snoc {A} (f : A → bool) (l : list A) (x : A) :
  find f (l ++ [x]) =
    match find f l with
    | Some y => Some y
    | None => if f x then Some x else None
    end.
Proof.
  induction l as [|y l IH]; simpl; [done|]. by destruct (f y).
Qed.

Lemma create_keeps_field k now fields st f :
  f ≠ "id" → f ≠ stamp k → prop (create k now fields st).1 f = prop fields f.
Proof.
  intros Hid Hstamp. unfold create, prop. cbn [fst]. by rewrite !lookup_insert_ne.
Qed.

(** X5. The repository does not keep usernames unique. [createUser]
    always stores a new record; when the username is already taken the
    lookup by that name keeps returning the older user, and the new one
    cannot be found by name. Lookups by other names are not affected. *)
Theorem username_first_wins (username : string) (now : Z) (fields : obj)
    (st : MemStorage) :
  keys_ok st → prop fields "username" = VStr username →
  let r := createUser now fields st in
  getAllUsers r.2 = getAllUsers st ++ [r.1]
  ∧ (getUserByUsername username st = None → getUserByUsername username r.2 = Some r.1)
  ∧ (∀ older, getUserByUsername username st = Some older →
       getUserByUsername username r.2 = Some older
       ∧ (2 ≤ length (List.filter (has_username username) (getAllUsers r.2)))%nat)
  ∧ (∀ other, other ≠ username →
       getUserByUsername other r.2 = getUserByUsername other st).
Proof.
  intros Hok Hname r.
  assert (getAllUsers r.2 = getAllUsers st ++ [r.1]) as Hall
    by by apply (getAll_create User).
  assert (prop r.1 "username" = VStr username) as Hnew.
  { unfold r, createUser. by rewrite create_keeps_field. }
  assert (has_username username r.1 = true) as Hmatch.
  { unfold has_username. rewrite Hnew. simpl. apply String.eqb_refl. }
  split_and!; [done|..].
  - intros Hnone. unfold getUserByUsername in *. by rewrite Hall, find_snoc, Hnone, Hmatch.
  - intros older Holder. unfold getUserByUsername in *. rewrite Hall. split.
    + by rewrite find_snoc, Holder.
    + rewrite List.filter_app, length_app. cbn [List.filter]. rewrite Hmatch.
      apply find_some in Holder as [Hin Hold].
      assert (older ∈ List.filter (has_username username) (getAllUsers st)) as Hf.
      { apply elem_of_list_filter. split; [by apply list_elem_of_In | done]. }
      destruct (List.filter _ (getAllUsers st)); [by apply elem_of_nil in Hf|].
      simpl. lia.
  - intros other Hother. unfold getUserByUsername. rewrite Hall, find_snoc.
    assert (has_username other r.1 = false) as ->.
    { unfold has_username. rewrite Hnew. simpl. apply String.eqb_neq. congruence. }
    by destruct (find _ _).
Qed.

Lemma in_topic_spec t x :
  in_topic t x = true ↔ ∃ z, t = Num z ∧ prop x "topicId" = VNum z.
Proof.
  unfold in_topic, num_strict_eq. destruct (prop x "topicId"), t; split;
    try done; try (by intros (? & ? & ?)).
  - intros ->%Z.eqb_eq. by eexists.
  - intros (z' & [= ->] & [= ->]). apply Z.eqb_refl.
Qed.

Lemma no_replies_of_NaN (l : list obj) : List.filter (in_topic NaN) l = [].
Proof.
  induction l as [|x l IH]; [done|]. cbn [List.filter].
  assert (in_topic NaN x = false) as ->; [|exact IH].
  unfold in_topic, num_strict_eq. by destruct (prop x "topicId").
Qed.

(** X6. A reply is filed under the topic id it names, whether or not a
    topic with that id exists: after [createForumReply] the reply is the
    last of the replies of that topic id, and the replies of every other
    topic id are as before. No reply is ever listed under [NaN], and
    every reply listed carries the number asked for. *)
Theorem reply_joins_its_topic (topic : Z) (now : Z) (fields : obj) (st : MemStorage) :
  keys_ok st → prop fields "topicId" = VNum topic →
  let r := createForumReply now fields st in
  getForumRepliesByTopic (Num topic) r.2 = getForumRepliesByTopic (Num topic) st ++ [r.1]
  ∧ (∀ t, t ≠ Num topic → getForumRepliesByTopic t r.2 = getForumRepliesByTopic t st)
  ∧ getForumRepliesByTopic NaN r.2 = []
  ∧ (∀ t x, x ∈ getForumRepliesByTopic t r.2 ↔
       x ∈ getAll ForumReply r.2 ∧ ∃ z, t = Num z ∧ prop x "topicId" = VNum z)
  ∧ getAll ForumTopic r.2 = getAll ForumTopic st.
Proof.
  intros Hok Htopic r.
  assert (getAll ForumReply r.2 = getAll ForumReply st ++ [r.1]) as Hall
    by by apply (getAll_create ForumReply).
  assert (prop r.1 "topicId" = VNum topic) as Hnew.
  { unfold r, createForumReply. by rewrite create_keeps_field. }
  unfold getForumRepliesByTopic. rewrite Hall. split_and!.
  - rewrite List.filter_app. cbn [List.filter].
    by rewrite (proj2 (in_topic_spec (Num topic) r.1)) by eauto.
  - intros t Ht. rewrite List.filter_app. cbn [List.filter].
    destruct (in_topic t r.1) eqn:Hin; [|by rewrite app_nil_r].
    apply in_topic_spec in Hin as (z & -> & Hz). congruence.
  - apply no_replies_of_NaN.
  - intros t x. rewrite <-Hall, elem_of_list_filter. by rewrite in_topic_spec.
  - unfold r, createForumReply, getAll. by rewrite create_coll_other.
Qed.

(** X7. Nothing cascades from a topic to its replies: deleting or updating
    a forum topic, or any entity other than a reply, leaves the replies of
    every topic as they were. *)
Theorem topic_removal_keeps_replies (id : number) (t : number) (st : MemStorage) :
  getForumRepliesByTopic t (deleteForumTopic id st).2 = getForumRepliesByTopic t st
  ∧ (∀ o, o ≠ ForumReply →
       getForumRepliesByTopic t (delete_ o id st).2 = getForumRepliesByTopic t st)
  ∧ (∀ k now P, k ≠ Owned ForumReply →
       getForumRepliesByTopic t (update k now id P st).2 = getForumRepliesByTopic t st)
  ∧ (∀ x, get ForumTopic id st = Some x →
       get ForumTopic id (deleteForumTopic id st).2 = None
       ∧ getAll ForumReply (deleteForumTopic id st).2 = getAll ForumReply st).
Proof.
  assert (∀ o, o ≠ ForumReply →
    getAll ForumReply (delete_ o id st).2 = getAll ForumReply st) as Hdel.
  { intros o Ho. unfold getAll. rewrite delete_coll_other; [done|]. congruence. }
  unfold getForumRepliesByTopic, deleteForumTopic. split_and!.
  - by rewrite Hdel.
  - intros o Ho. by rewrite Hdel.
  - intros k now P Hk. unfold getAll. rewrite update_coll_other; [done|]. congruence.
  - intros x Hx. split; [apply delete_get | by apply Hdel].
Qed.

(** * The rest of the routes *)

Section ServerFacts.
Variable parse : owned → obj → obj + value.
Variable date_ms : value → number.

(** X8. The six routes without a gate only read. Whoever asks, the store
    is left as it is and exactly one repository call is made, which is not
    a mutation. The routes by id and by key answer 200 with the stored
    record when there is one and 404 otherwise (an id that is not a number
    finds nothing); the list routes always answer 200. *)
Theorem open_routes_only_read (user : option obj) (r : request) (w : World) :
  gate_of r = Open →
  let a := handle parse date_ms user r w in
  storage a.2 = storage w
  ∧ (∃ c, calls a.2 = calls w ++ [c] ∧ is_mutation c = false)
  ∧ a = handle parse date_ms None r w
  ∧ match r with
    | GetById rd id_param =>
        a.1 = match get (readable_owned rd) (parseInt id_param) (storage w) with
              | Some e => mkResponse 200 (JEntity (Some e))
              | None => mkResponse 404 (not_found (readable_owned rd))
              end
        ∧ (parseInt id_param = NaN → status a.1 = 404)
    | GetSiteSettingByKey key =>
        a.1 = match getSiteSetting (VStr key) (storage w) with
              | Some s => mkResponse 200 (JEntity (Some s))
              | None => mkResponse 404 (JMessage "Setting not found")
              end
    | GetList rd => a.1 = mkResponse 200 (JArray (getAll (readable_owned rd) (storage w)))
    | GetSiteSettings => a.1 = mkResponse 200 (JArray (getAll SiteSetting (storage w)))
    | GetReplies topicId_param =>
        a.1 = mkResponse 200
                (JArray (getForumRepliesByTopic (parseInt topicId_param) (storage w)))
    | _ => status a.1 = 200
    end.
Proof.
  intros Hgate a. subst a. destruct r; try discriminate Hgate; cbn [handle].
  - split_and!; try done. eexists. by split.
  - split_and!; try done. eexists. by split.
  - unfold get_by_id. handler.
    destruct (get (readable_owned r) (parseInt id_param) (storage w)) eqn:Hget;
      cbn [fst snd storage calls]; (split_and!; try done; try (by eexists)).
    intros Hnan. rewrite Hnan in Hget. unfold get in Hget.
    by rewrite map_get_NaN in Hget.
  - split_and!; try done. eexists. by split.
  - split_and!; try done. eexists. by split.
  - unfold get_site_setting. handler.
    destruct (getSiteSetting (VStr key) (storage w));
      cbn [fst snd storage calls]; (split_and!; try done; try (by eexists)).
Qed.

Lemma post_owned_eq o u req_body now w :
  post_owned parse o (Some u) req_body now w =
    match parse o req_body with
    | inl data =>
        let r := create o now data (storage w) in
        (mkResponse 201 (JEntity (Some r.1)), mkWorld r.2 (calls w ++ [CallCreate o data]))
    | inr errors => (mkResponse 400 (invalid o errors), w)
    end.
Proof.
  unfold post_owned. handler. destruct (parse o req_body); [|done].
  handler. by destruct (create o now _ (storage w)).
Qed.

(** X9. [POST] on an owned kind. When the validator rejects the body the
    answer is 400 with its errors and the repository is not called. When
    it accepts, the answer is 201 with a record that has the next id of a
    well-keyed store and the current time as [createdAt], and that can be
    looked up under that id at once. The owner recorded is the one the
    validated body names: the answer is the same for every session user. *)
Theorem post_owned_contract (o : owned) (u : obj) (req_body : obj) (now : Z) (w : World) :
  let a := post_owned parse o (Some u) req_body now w in
  let id := idCounter (coll o (storage w)) in
  (∀ errors, parse o req_body = inr errors →
     a = (mkResponse 400 (invalid o errors), w))
  ∧ (∀ data, parse o req_body = inl data → keys_ok (storage w) →
       ∃ e, a.1 = mkResponse 201 (JEntity (Some e))
         ∧ prop e "id" = VNum id
         ∧ prop e "createdAt" = VDate now
         ∧ prop e (owner_field o) = prop data (owner_field o)
         ∧ get o (Num id) (storage w) = None
         ∧ get o (Num id) (storage a.2) = Some e
         ∧ getAll o (storage a.2) = getAll o (storage w) ++ [e]
         ∧ calls a.2 = calls w ++ [CallCreate o data]
         ∧ keys_ok (storage a.2))
  ∧ (∀ u', post_owned parse o (Some u') req_body now w = a).
Proof.
  intros a id. subst a. rewrite post_owned_eq. split_and!.
  - by intros errors ->.
  - intros data -> Hok. cbv zeta. cbn [fst snd storage calls].
    exists (create o now data (storage w)).1. split_and!; try done.
    + apply create_id.
    + apply (create_stamp o).
    + apply create_keeps_field; by destruct o.
    + by apply create_fresh.
    + apply create_stored.
    + by apply getAll_create.
    + by apply keys_ok_create.
  - intros u'. by rewrite post_owned_eq.
Qed.

(** X10. What is refused before the repository is reached. A request
    without a session gets 401 on the routes behind [isAuthenticated] and
    403 (not 401) on the routes behind [isAdmin]; a session user who is not
    an admin gets 403 on the latter. An admin's setting without a truthy
    key and an admin's batch that is not an array get 400. In every one of
    these cases the store and the call log are untouched. *)
Theorem refused_before_repository (user : option obj) (r : request) (w : World) :
  let a := handle parse date_ms user r w in
  let is_admin :=
    match user with
    | Some u => strict_eq (prop u "role") (VStr "admin")
    | None => false
    end in
  (gate_of r = Authenticated → user = None →
     a = (mkResponse 401 (JMessage "Unauthorized"), w))
  ∧ (gate_of r = Admin → is_admin = false →
       a = (mkResponse 403 (JMessage "Forbidden"), w))
  ∧ (∀ b now, r = PostSiteSetting b now → is_admin = true →
       truthy (prop b "key") = false →
       a = (mkResponse 400 (JMessage "Key is required"), w))
  ∧ (∀ b clock, r = PostSiteSettingsBatch b clock → is_admin = true →
       (∀ items, b ≠ VArr items) →
       a = (mkResponse 400 (JMessage "Request body must be an array"), w)).
Proof.
  intros a is_admin. subst a. split_and!.
  - intros Hgate ->. by destruct r.
  - intros Hgate Hadmin. subst is_admin.
    destruct r; try discriminate Hgate; cbn [handle];
      unfold get_users, patch_user, post_site_setting, post_site_settings_batch; handler;
      destruct user as [u|]; try done; by rewrite Hadmin.
  - intros b now -> Hadmin Hkey. subst is_admin. destruct user as [u|]; [|done].
    cbn [handle]. unfold post_site_setting. handler. by rewrite Hadmin, Hkey.
  - intros b clock -> Hadmin Hb. subst is_admin. destruct user as [u|]; [|done].
    cbn [handle]. unfold post_site_settings_batch. handler. rewrite Hadmin.
    destruct b; try done. by destruct (Hb items).
Qed.

End ServerFacts.

(** X11. [DELETE] by the owner or an admin: the answer is 200, the entity
    is gone and every other record is as before; the log shows the lookup
    and the delete. A second [DELETE] and a later [PATCH] of the same id
    change nothing, whoever sends them: a signed-in user, owner and admin
    included, gets 404, and a request without a session gets 401. *)
Theorem delete_by_owner_or_admin (o : owned) (u e : obj) (id_param : string) (w : World) :
  let id := parseInt id_param in
  get o id (storage w) = Some e →
  strict_eq (prop e (owner_field o)) (prop u "id") = true
    ∨ strict_eq (prop u "role") (VStr "admin") = true →
  let a := delete_owned o (Some u) id_param w in
  a.1 = mkResponse 200 (deleted o)
  ∧ calls a.2 = calls w ++ [CallGet o id; CallDelete o id]
  ∧ get o id (storage a.2) = None
  ∧ (∀ k id', k ≠ Owned o ∨ id' ≠ id → get k id' (storage a.2) = get k id' (storage w))
  ∧ (∀ user' : option obj,
       (delete_owned o user' id_param a.2).1 =
         match user' with
         | Some _ => mkResponse 404 (not_found o)
         | None => mkResponse 401 (JMessage "Unauthorized")
         end
       ∧ storage (delete_owned o user' id_param a.2).2 = storage a.2)
  ∧ (∀ (user' : option obj) b now,
       (patch_owned o user' id_param b now a.2).1 =
         match user' with
         | Some _ => mkResponse 404 (not_found o)
         | None => mkResponse 401 (JMessage "Unauthorized")
         end
       ∧ storage (patch_owned o user' id_param b now a.2).2 = storage a.2).
Proof.
  intros id Hget Hgate a.
  assert (a = (mkResponse 200 (deleted o),
               mkWorld (delete_ o id (storage w)).2
                 (calls w ++ [CallGet o id; CallDelete o id]))) as Ha.
  { unfold a. rewrite delete_owned_eq. cbv zeta. fold id. rewrite Hget.
    rewrite (proj2 (forbidden_false o e u) Hgate).
    by rewrite (proj2 (delete_found o id (storage w))) by eauto. }
  assert (get o id (storage a.2) = None) as Hgone.
  { rewrite Ha. cbn [snd storage]. apply delete_get. }
  split_and!.
  - by rewrite Ha.
  - by rewrite Ha.
  - done.
  - intros k id' Hne. rewrite Ha. cbn [snd storage]. by apply delete_get_other.
  - intros [u'|]; [|done]. rewrite delete_owned_eq. cbv zeta. fold id.
    by rewrite Hgone.
  - intros [u'|] b now; [|done]. rewrite patch_owned_eq. cbv zeta. fold id.
    by rewrite Hgone.
Qed.

Lemma without_password_insert (b : obj) (p : value) :
  without_password (<["password" := p]> b) = without_password b.
Proof. unfold without_password. apply delete_insert_eq. Qed.

(** X12. [PATCH /api/users/:id] by an admin never touches a password: a
    [password] in the body is dropped before the update, so the request
    has the same effect with or without it, and the stored password of
    the user is what it was. Every other property of the body is written.
    For an id without a user the answer is 404 and the store is
    unchanged. *)
Theorem patch_user_keeps_password (u : obj) (id_param : string) (req_body : obj)
    (now : Z) (w : World) :
  strict_eq (prop u "role") (VStr "admin") = true →
  let id := parseInt id_param in
  let a := patch_user (Some u) id_param req_body now w in
  (∀ p, patch_user (Some u) id_param (<["password" := p]> req_body) now w = a)
  ∧ (∀ x, get User id (storage w) = Some x →
       ∃ y, get User id (storage a.2) = Some y
         ∧ y !! "password" = x !! "password"
         ∧ (∀ f v, f ≠ "password" → req_body !! f = Some v → y !! f = Some v)
         ∧ (∀ f, req_body !! f = None → y !! f = x !! f)
         ∧ a.1 = mkResponse 200 (JEntity (Some (without_password y))))
  ∧ (get User id (storage w) = None →
       a = (mkResponse 404 (JMessage "User not found"),
            mkWorld (storage w) (calls w ++ [CallUpdate User id (without_password req_body)]))).
Proof.
  intros Hadmin id a. subst a. rewrite patch_user_eq. cbv zeta. fold id.
  rewrite Hadmin. split_and!.
  - intros p. rewrite patch_user_eq. cbv zeta. fold id.
    by rewrite Hadmin, without_password_insert.
  - intros x Hx.
    pose proof (update_get User now id (without_password req_body) x (storage w) Hx)
      as Hstored.
    assert ((update User now id (without_password req_body) (storage w)).1 =
              Some (without_password req_body ∪ x)) as ->.
    { by destruct (update_present User now id (without_password req_body) x
                     (storage w) Hx) as (z & _ & ->). }
    cbn [fst snd storage].
    exists (without_password req_body ∪ x). split_and!.
    + exact Hstored.
    + rewrite lookup_union_r; [done|]. apply without_password_lookup.
    + intros f v Hf Hv. apply lookup_union_Some_l. unfold without_password.
      by rewrite lookup_delete_ne.
    + intros f Hf. apply lookup_union_r. unfold without_password.
      destruct (decide (f = "password")) as [->|Hne];
        [apply lookup_delete_eq | by rewrite lookup_delete_ne].
    + done.
  - intros Hnone. by rewrite update_absent.
Qed.

(** * Site settings: lookups across upserts *)

Lemma find_replace_unmatched {A} (f : A → bool) l1 l2 x y :
  f x = false → f y = false → find f (l1 ++ x :: l2) = find f (l1 ++ y :: l2).
Proof.
  intros Hx Hy. induction l1 as [|z l1 IH]; simpl.
  - by rewrite Hx, Hy.
  - by destruct (f z).
Qed.

Lemma upsert_lookup_other u key val now w q :
  settings_ok (storage w) → strict_eq key q = false →
  getSiteSetting q (storage (upsert u key val now w).2) = getSiteSetting q (storage w).
Proof.
  intros Hok Hq. rewrite upsert_eq. cbv zeta.
  destruct (getSiteSetting key (storage w)) as [e|] eqn:Hfind; cbn [snd storage].
  - destruct (setting_update_values _ key val u now e Hok Hfind)
      as (l1 & l2 & Hbefore & Hafter & Hekey).
    unfold getSiteSetting. rewrite Hafter, Hbefore.
    apply find_replace_unmatched; unfold has_key.
    + destruct (merged_setting_props now e key val u) as (-> & _). done.
    + by rewrite Hekey.
  - destruct (setting_create_ok _ key val u now Hok Hfind) as (_ & Hall & Hk & _).
    unfold getSiteSetting. rewrite Hall, find_snoc.
    unfold has_key at 2. rewrite Hk, Hq. by destruct (find _ _).
Qed.

Lemma upsert_lookup_same u key val now w q :
  settings_ok (storage w) → strict_eq key q = true →
  ∃ s, getSiteSetting q (storage (upsert u key val now w).2) = Some s
    ∧ prop s "key" = key ∧ prop s "value" = val ∧ prop s "updatedBy" = prop u "id"
    ∧ ∀ e, getSiteSetting q (storage w) = Some e → prop s "id" = prop e "id".
Proof.
  intros Hok Hq. pose proof (strict_eq_true _ _ Hq) as <-.
  rewrite upsert_eq. cbv zeta.
  destruct (getSiteSetting key (storage w)) as [e|] eqn:Hfind; cbn [snd storage].
  - destruct (setting_update_ok _ key val u now e Hok Hfind) as (_ & _ & Hfind2 & _).
    destruct (merged_setting_props now e key val u) as (Hk & Hv & Hby & _ & Hid).
    eexists. split_and!; [exact Hfind2|done..|]. by intros e' [= <-].
  - destruct (setting_create_ok _ key val u now Hok Hfind)
      as (_ & Hall & Hk & Hv & Hby & _).
    eexists. split_and!; [|exact Hk|exact Hv|exact Hby|done].
    unfold getSiteSetting in *. rewrite Hall, find_snoc, Hfind.
    unfold has_key. by rewrite Hk, Hq.
Qed.

(** X13. A setting posted by an admin is what [GET /api/site-settings/:key]
    returns next: the answer is 200 with the posted value and the admin as
    [updatedBy]. The settings of all other keys read as before. Holds in
    every store that satisfies the settings invariant. *)
Theorem setting_post_then_get (u : obj) (key : string) (req_body : obj) (now : Z)
    (w : World) :
  settings_ok (storage w) →
  strict_eq (prop u "role") (VStr "admin") = true →
  prop req_body "key" = VStr key → key ≠ "" →
  let a := post_site_setting (Some u) req_body now w in
  (∃ s, (get_site_setting key a.2).1 = mkResponse 200 (JEntity (Some s))
      ∧ a.1 = mkResponse
                (match getSiteSetting (VStr key) (storage w) with
                 | Some _ => 200
                 | None => 201
                 end) (JEntity (Some s))
      ∧ prop s "key" = VStr key
      ∧ prop s "value" = prop req_body "value"
      ∧ prop s "updatedBy" = prop u "id")
  ∧ (∀ other, other ≠ key →
       (get_site_setting other a.2).1 = (get_site_setting other w).1).
Proof.
  intros Hok Hadmin Hkey Hne a.
  assert (truthy (prop req_body "key") = true) as Htruthy.
  { rewrite Hkey. simpl. destruct key; [done | reflexivity]. }
  assert (a.2 = (upsert u (VStr key) (prop req_body "value") now w).2) as Hw.
  { unfold a. rewrite post_site_setting_eq by done. cbv zeta. by rewrite Hkey. }
  assert (∀ name : string, (get_site_setting name a.2).1 =
            match getSiteSetting (VStr name) (storage a.2) with
            | Some s => mkResponse 200 (JEntity (Some s))
            | None => mkResponse 404 (JMessage "Setting not found")
            end) as Hget.
  { intros name. unfold get_site_setting. handler. by destruct (getSiteSetting _ _). }
  split.
  - destruct (upsert_lookup_same u (VStr key) (prop req_body "value") now w (VStr key) Hok)
      as (s & Hs & Hk & Hv & Hby & _).
    { simpl. apply String.eqb_refl. }
    exists s. rewrite Hget, Hw, Hs. split_and!; try done.
    unfold a. rewrite post_site_setting_eq by done. cbv zeta. rewrite Hkey.
    rewrite upsert_eq in Hs |- *. cbv zeta in Hs |- *.
    destruct (getSiteSetting (VStr key) (storage w)) as [e|] eqn:Hfind;
      cbn [fst snd storage] in Hs |- *.
    + destruct (setting_update_ok _ (VStr key) (prop req_body "value") u now e Hok Hfind)
        as (Hr & _ & Hfind2 & _).
      rewrite Hfind2 in Hs. injection Hs as <-. by rewrite Hr.
    + destruct (setting_create_ok _ (VStr key) (prop req_body "value") u now Hok Hfind)
        as (_ & Hall & Hk' & _).
      unfold getSiteSetting in Hs, Hfind. rewrite Hall, find_snoc, Hfind in Hs.
      unfold has_key in Hs. rewrite Hk' in Hs. simpl in Hs.
      rewrite String.eqb_refl in Hs. by injection Hs as <-.
  - intros other Hother. rewrite Hget, Hw.
    rewrite upsert_lookup_other; [|done|].
    + unfold get_site_setting. handler. by destruct (getSiteSetting _ _).
    + simpl. apply String.eqb_neq. congruence.
Qed.

(** The loop of the batch, one key at a time. *)
Lemma batch_lookup u clock i items results w q :
  settings_ok (storage w) →
  Forall (λ item, nullish item = false) items →
  let st' := storage (batch_loop u clock i items results w).2 in
  match last_value q items with
  | Some v =>
      ∃ s, getSiteSetting q st' = Some s
        ∧ prop s "value" = v ∧ prop s "updatedBy" = prop u "id"
        ∧ ∀ e, getSiteSetting q (storage w) = Some e → prop s "id" = prop e "id"
  | None => getSiteSetting q st' = getSiteSetting q (storage w)
  end.
Proof.
  intros Hok Hitems. revert i results w Hok.
  induction Hitems as [|item rest Hn _ IH]; intros i results w Hok; [done|].
  cbv zeta. rewrite batch_loop_cons by done. cbn [last_value].
  destruct (has_truthy_key item) eqn:Hkeyed; cbn [andb].
  - cbv zeta. set (w1 := (upsert u _ _ _ w).2).
    assert (settings_ok (storage w1)) as Hok1 by by apply upsert_ok.
    specialize (IH (S i) (results ++ [(upsert u (get_prop item "key")
      (get_prop item "value") (clock i) w).1.2]) w1 Hok1). cbv zeta in IH.
    destruct (strict_eq (get_prop item "key") q) eqn:Hq.
    + destruct (upsert_lookup_same u _ (get_prop item "value") (clock i) w q Hok Hq)
        as (s1 & Hs1 & _ & Hv1 & Hby1 & Hid1). fold w1 in Hs1.
      destruct (last_value q rest) as [v|].
      * destruct IH as (s & Hs & Hv & Hby & Hid). exists s. split_and!; try done.
        intros e He. rewrite (Hid s1 Hs1). by apply Hid1.
      * exists s1. by rewrite IH.
    + pose proof (upsert_lookup_other u _ (get_prop item "value") (clock i) w q Hok Hq)
        as Hsame. fold w1 in Hsame.
      destruct (last_value q rest) as [v|].
      * destruct IH as (s & Hs & Hv & Hby & Hid). exists s. split_and!; try done.
        intros e He. apply Hid. by rewrite Hsame.
      * by rewrite IH.
  - specialize (IH (S i) results w Hok). cbv zeta in IH.
    destruct (last_value q rest) as [v|]; exact IH.
Qed.

(** X14. A batch without a [null] item, sent by an admin to a store that
    satisfies the settings invariant. For every key, the setting found
    after the batch carries the value of the last item of the batch that
    has this key, with the admin as [updatedBy], and it is the record (same
    id) that held the key before, if there was one. A key that no item of
    the batch has keeps its setting, or its absence, as it was. *)
Theorem batch_last_value_wins (u : obj) (items : list value) (clock : nat → Z)
    (w : World) (q : value) :
  settings_ok (storage w) →
  strict_eq (prop u "role") (VStr "admin") = true →
  Forall (λ item, nullish item = false) items →
  let st' := storage (post_site_settings_batch (Some u) (VArr items) clock w).2 in
  settings_ok st'
  ∧ match last_value q items with
    | Some v =>
        ∃ s, getSiteSetting q st' = Some s
          ∧ prop s "value" = v ∧ prop s "updatedBy" = prop u "id"
          ∧ ∀ e, getSiteSetting q (storage w) = Some e → prop s "id" = prop e "id"
    | None => getSiteSetting q st' = getSiteSetting q (storage w)
    end.
Proof.
  intros Hok Hadmin Hitems st'. split; [by apply post_batch_ok|].
  unfold st'. rewrite post_batch_eq by done.
  by apply (batch_lookup u clock 0 items [] w q).
Qed.

(** * The whole server *)

Section WholeServer.
Variable parse : owned → obj → obj + value.
Variable date_ms : value → number.

(** What a request that is not a settings upsert can do to the store. *)
Lemma handle_effect user r w :
  upserts_settings r = false →
  let st := storage w in
  let st' := storage (handle parse date_ms user r w).2 in
  st' = st
  ∨ (∃ o now fields, st' = (create (Owned o) now fields st).2)
  ∨ (∃ k now id fields, k ≠ SiteSetting ∧ st' = (update k now id fields st).2)
  ∨ (∃ o id, st' = (delete_ o id st).2).
Proof.
  intros Hr. cbv zeta. destruct r; try discriminate Hr; cbn [handle].
  - by left.
  - by left.
  - left. unfold get_by_id. handler. by destruct (get _ _ _).
  - by left.
  - by left.
  - left. unfold get_site_setting. handler. by destruct (getSiteSetting _ _).
  - destruct user as [u|]; [|by left]. rewrite post_owned_eq.
    destruct (parse o req_body); [|by left]. right. left. by eexists _, _, _.
  - destruct user as [u|]; [|by left]. rewrite patch_owned_eq. cbv zeta.
    destruct (get o _ _); [|by left]. destruct (forbidden o _ u); [by left|].
    right. right. left. by eexists (Owned o), _, _, _.
  - destruct user as [u|]; [|by left]. rewrite delete_owned_eq. cbv zeta.
    destruct (get o _ _); [|by left]. destruct (forbidden o _ u); [by left|].
    right. right. right. by eexists _, _.
  - left. by destruct user.
  - left. by destruct user.
  - left. rewrite get_users_eq. destruct user as [u|]; [|done].
    by destruct (strict_eq _ _).
  - rewrite patch_user_eq. cbv zeta. destruct user as [u|]; [|by left].
    destruct (strict_eq _ _); [|by left].
    right. right. left. eexists User, _, _, _. split; [done|].
    by destruct (update User _ _ _ _).1.
Qed.

Lemma handle_other_settings user r w :
  upserts_settings r = false →
  coll SiteSetting (storage (handle parse date_ms user r w).2) =
    coll SiteSetting (storage w).
Proof.
  intros Hr.
  destruct (handle_effect user r w Hr)
    as [->|[(o & now & f & ->)|[(k & now & id & f & Hk & ->)|(o & id & ->)]]].
  - done.
  - by apply create_coll_other.
  - apply update_coll_other. congruence.
  - by apply delete_coll_other.
Qed.

Lemma upsert_keys_ok u key val now w :
  keys_ok (storage w) → keys_ok (storage (upsert u key val now w).2).
Proof.
  intros Hok. rewrite upsert_eq. cbv zeta.
  destruct (getSiteSetting key (storage w)); cbn [snd storage].
  - by apply keys_ok_update.
  - by apply keys_ok_create.
Qed.

Lemma batch_loop_keys_ok u clock i items results w :
  keys_ok (storage w) → keys_ok (storage (batch_loop u clock i items results w).2).
Proof.
  revert i results w. induction items as [|item rest IH]; intros i results w Hok; [done|].
  destruct (nullish item) eqn:Hn.
  - by rewrite batch_loop_null.
  - rewrite batch_loop_cons by done. destruct (has_truthy_key item); [|by apply IH].
    cbv zeta. apply IH. by apply upsert_keys_ok.
Qed.

Lemma handle_keys_ok user r w :
  keys_ok (storage w) → keys_ok (storage (handle parse date_ms user r w).2).
Proof.
  intros Hok. destruct (upserts_settings r) eqn:Hr.
  - destruct r; try discriminate Hr; cbn [handle].
    + destruct user as [u|]; [|done].
      destruct (strict_eq (prop u "role") (VStr "admin")) eqn:Hadmin.
      * destruct (truthy (prop req_body "key")) eqn:Hkey.
        -- rewrite post_site_setting_eq by done. cbv zeta. cbn [snd].
           by apply upsert_keys_ok.
        -- unfold post_site_setting. handler. by rewrite Hadmin, Hkey.
      * unfold post_site_setting. handler. by rewrite Hadmin.
    + unfold post_site_settings_batch. handler. destruct user as [u|]; [|done].
      destruct (strict_eq _ _); [|done].
      destruct req_body; try done. by apply batch_loop_keys_ok.
  - destruct (handle_effect user r w Hr)
      as [->|[(o & now & f & ->)|[(k & now & id & f & Hk & ->)|(o & id & ->)]]].
    + done.
    + by apply keys_ok_create.
    + by apply keys_ok_update.
    + by apply keys_ok_delete.
Qed.

Lemma settings_ok_same_coll st st' :
  coll SiteSetting st' = coll SiteSetting st → settings_ok st → settings_ok st'.
Proof.
  intros Hc. unfold settings_ok, settings_with_key, getAll.
  change (siteSettings ?x) with (coll SiteSetting x). by rewrite Hc.
Qed.

Lemma getSiteSetting_same_coll st st' q :
  coll SiteSetting st' = coll SiteSetting st → getSiteSetting q st' = getSiteSetting q st.
Proof. intros Hc. unfold getSiteSetting, getAll. by rewrite Hc. Qed.

Lemma handle_settings_ok user r w :
  settings_ok (storage w) → settings_ok (storage (handle parse date_ms user r w).2).
Proof.
  intros Hok. destruct (upserts_settings r) eqn:Hr.
  - destruct r; try discriminate Hr; cbn [handle].
    + by apply post_site_setting_ok.
    + by apply post_batch_ok.
  - eapply settings_ok_same_coll; [|exact Hok]. by apply handle_other_settings.
Qed.

Lemma handle_all_ok rs w :
  keys_ok (storage w) → settings_ok (storage w) →
  keys_ok (storage (handle_all parse date_ms rs w))
  ∧ settings_ok (storage (handle_all parse date_ms rs w)).
Proof.
  revert w. induction rs as [|[user r] rs IH]; intros w Hk Hs; [done|].
  cbn [handle_all]. apply IH; [by apply handle_keys_ok | by apply handle_settings_ok].
Qed.

(** X15. Whatever requests the server has answered since it started, under
    whatever sessions, the store is well formed: in every collection the
    keys are distinct, positive and below the counter; every setting
    carries its map key as [id]; and no key is held by two settings. *)
Theorem server_keeps_store_well_formed (rs : list (option obj * request)) :
  let st := storage (handle_all parse date_ms rs new_World) in
  (∀ k, NoDup (data (coll k st)).*1
        ∧ ∀ i, i ∈ (data (coll k st)).*1 → 0 < i < idCounter (coll k st))
  ∧ (∀ i s, (i, s) ∈ data (coll SiteSetting st) → prop s "id" = VNum i)
  ∧ (∀ key, (length (settings_with_key key st) ≤ 1)%nat).
Proof.
  intros st.
  destruct (handle_all_ok rs new_World keys_ok_new settings_ok_new) as [Hk Hs].
  fold st in Hk, Hs. split_and!.
  - intros k. destruct (Hk k) as (_ & Hnd & Hlt). by split.
  - apply Hs.
  - apply Hs.
Qed.

Lemma persists_refl st : persists st st.
Proof. intros q x Hx. by exists x. Qed.

Lemma upsert_persists u key val now w :
  settings_ok (storage w) → persists (storage w) (storage (upsert u key val now w).2).
Proof.
  intros Hok q s Hs. destruct (strict_eq key q) eqn:Hq.
  - destruct (upsert_lookup_same u key val now w q Hok Hq) as (s' & Hs' & _ & _ & _ & Hid).
    exists s'. split; [done | by apply Hid].
  - exists s. by rewrite upsert_lookup_other.
Qed.

Lemma batch_loop_persists u clock i items results w :
  settings_ok (storage w) →
  persists (storage w) (storage (batch_loop u clock i items results w).2).
Proof.
  revert i results w. induction items as [|item rest IH]; intros i results w Hok.
  { apply persists_refl. }
  destruct (nullish item) eqn:Hn.
  { rewrite batch_loop_null by done. apply persists_refl. }
  rewrite batch_loop_cons by done. destruct (has_truthy_key item); [|by apply IH].
  cbv zeta. intros q s Hs.
  destruct (upsert_persists u (get_prop item "key") (get_prop item "value") (clock i)
              w Hok q s Hs) as (s1 & Hs1 & Hid1).
  destruct (IH (S i) (results ++ [(upsert u (get_prop item "key")
              (get_prop item "value") (clock i) w).1.2]) _
              (proj1 (upsert_ok u _ _ _ w Hok)) q s1 Hs1) as (s2 & Hs2 & Hid2).
  exists s2. split; [done | congruence].
Qed.

Lemma handle_persists user r w :
  settings_ok (storage w) →
  persists (storage w) (storage (handle parse date_ms user r w).2).
Proof.
  intros Hok. destruct (upserts_settings r) eqn:Hr.
  - destruct r; try discriminate Hr; cbn [handle].
    + destruct user as [u|]; [|apply persists_refl].
      destruct (strict_eq (prop u "role") (VStr "admin")) eqn:Hadmin.
      * destruct (truthy (prop req_body "key")) eqn:Hkey.
        -- rewrite post_site_setting_eq by done. cbv zeta. cbn [snd].
           by apply upsert_persists.
        -- unfold post_site_setting. handler. rewrite Hadmin, Hkey.
           apply persists_refl.
      * unfold post_site_setting. handler. rewrite Hadmin. apply persists_refl.
    + unfold post_site_settings_batch. handler.
      destruct user as [u|]; [|apply persists_refl].
      destruct (strict_eq _ _); [|apply persists_refl].
      destruct req_body; try apply persists_refl.
      by apply batch_loop_persists.
  - intros q s Hs. exists s. split; [|done].
    rewrite (getSiteSetting_same_coll (storage w)); [done|].
    by apply handle_other_settings.
Qed.

Lemma handle_all_persists rs w :
  settings_ok (storage w) →
  persists (storage w) (storage (handle_all parse date_ms rs w)).
Proof.
  revert w. induction rs as [|[user r] rs IH]; intros w Hok; [apply persists_refl|].
  cbn [handle_all]. intros q x Hx.
  destruct (handle_persists user r w Hok q x Hx) as (x1 & Hx1 & Hid1).
  destruct (IH _ (handle_settings_ok user r w Hok) q x1 Hx1) as (x2 & Hx2 & Hid2).
  exists x2. split; [done | congruence].
Qed.

(** X16. Settings are never removed and never renumbered. Once a key has
    a setting, every later state of the server, after any requests to any
    routes, still has a setting for that key, and it is the same record:
    its id has not changed. *)
Theorem setting_keeps_its_id (rs : list (option obj * request)) (w : World)
    (q : value) (x : obj) :
  settings_ok (storage w) →
  getSiteSetting q (storage w) = Some x →
  ∃ x', getSiteSetting q (storage (handle_all parse date_ms rs w)) = Some x'
    ∧ prop x' "id" = prop x "id"
    ∧ get SiteSetting (as_number (prop x "id")) (storage (handle_all parse date_ms rs w))
        = Some x'.
Proof.
  intros Hok Hx.
  destruct (handle_all_persists rs w Hok q x Hx) as (x' & Hx' & Hid).
  exists x'. split_and!; [done..|].
  assert (settings_ok (storage (handle_all parse date_ms rs w))) as Hok'.
  { clear Hx Hx'. revert w Hok. induction rs as [|[user r] rs IH]; intros w Hok; [done|].
    cbn [handle_all]. apply IH. by apply handle_settings_ok. }
  destruct Hok' as (Hnd & _ & Hids & _).
  unfold getSiteSetting in Hx'. apply find_some in Hx' as [Hin _].
  rewrite settings_values in Hin. apply in_map_iff in Hin as ([i y] & Hy & Hin).
  simpl in Hy. subst y. apply list_elem_of_In in Hin.
  rewrite <-Hid, (Hids i x' Hin). cbn [as_number].
  by destruct (map_split i x' _ Hnd Hin) as (_ & _ & _ & _ & Hget & _).
Qed.

End WholeServer.

(** * Readers on the client side *)

(** X17. What the footer shows for a setting. After an admin has posted a
    truthy value for a key, the list served by [GET /api/site-settings]
    makes the reader return that value. With an empty value posted, with no
    setting for the key, and while the list is still loading, the reader
    returns its fallback. *)
Theorem posted_setting_is_shown (u : obj) (key : string) (req_body : obj) (now : Z)
    (fallback : value) (w : World) :
  settings_ok (storage w) →
  strict_eq (prop u "role") (VStr "admin") = true →
  prop req_body "key" = VStr key → key ≠ "" →
  let a := post_site_setting (Some u) req_body now w in
  let served := get_site_settings a.2 in
  ∃ settings, served.1 = mkResponse 200 (JArray settings)
    ∧ setting_or (Some settings) key fallback =
        (if truthy (prop req_body "value") then prop req_body "value" else fallback)
    ∧ setting_or None key fallback = fallback
    ∧ (∀ other, getSiteSetting (VStr other) (storage a.2) = None →
         setting_or (Some settings) other fallback = fallback).
Proof.
  intros Hok Hadmin Hkey Hne a served.
  assert (truthy (prop req_body "key") = true) as Htruthy.
  { rewrite Hkey. simpl. destruct key; [done | reflexivity]. }
  assert (a.2 = (upsert u (VStr key) (prop req_body "value") now w).2) as Hw.
  { unfold a. rewrite post_site_setting_eq by done. cbv zeta. by rewrite Hkey. }
  exists (getAll SiteSetting (storage a.2)). split_and!.
  - reflexivity.
  - destruct (upsert_lookup_same u (VStr key) (prop req_body "value") now w (VStr key) Hok)
      as (s & Hs & _ & Hv & _).
    { simpl. apply String.eqb_refl. }
    rewrite <-Hw in Hs. unfold getSiteSetting in Hs. unfold setting_or.
    by rewrite Hs, Hv.
  - reflexivity.
  - intros other Hnone. unfold getSiteSetting in Hnone. unfold setting_or.
    by rewrite Hnone.
Qed.

(** X18. [AvatarGroup] with a limit [max ≥ 0] (4 by default) renders the
    first [max] avatars, or all of them when there are fewer, and a badge
    with the number of avatars left out exactly when some are left out: the
    avatars rendered and the number on the badge add up to the number of
    avatars given. *)
Theorem avatar_group_accounts_for_all {A} (avatars : list A) (max : option number)
    (m : Z) :
  default (Num 4) max = Num m → 0 ≤ m →
  let n := Z.of_nat (length avatars) in
  let g := avatar_group avatars max in
  g.1 = take (Z.to_nat m) avatars
  ∧ Z.of_nat (length g.1) = Z.min m n
  ∧ g.2 = (if m <? n then Some (Num (n - m)) else None)
  ∧ Z.of_nat (length g.1) + match g.2 with Some (Num b) => b | _ => 0 end = n.
Proof.
  intros Hmax Hm n g. subst g. unfold avatar_group. rewrite Hmax. cbv zeta.
  cbn [fst snd slice_to num_sub num_gt]. fold n.
  rewrite (proj2 (Z.ltb_ge m 0) Hm).
  assert ((0 <? n - m) = (m <? n)) as ->.
  { destruct (Z.ltb_spec 0 (n - m)), (Z.ltb_spec m n); (done || lia). }
  rewrite length_take. split_and!; [done|lia|done|].
  destruct (Z.ltb_spec m n); lia.
Qed.

(** * The further properties on sample data *)

Lemma create_contract_witness :
  let r := createEvent 2000 (<["id" := VNum 77]> (service 5000)) one_event in
  r.1 !! "id" = Some (VNum 2)
  ∧ get Event (Num 2) r.2 = Some r.1
  ∧ length (getAllEvents r.2) = 2%nat.
Proof.
  intros r.
  destruct (create_contract Event 2000 (<["id" := VNum 77]> (service 5000)) one_event
              (keys_ok_create Event 1000 (service 90000) _ keys_ok_new))
    as (Hid & _ & _ & _ & Hget & Hall & _).
  split; [exact Hid|]. split; [exact Hget|].
  exact (f_equal length Hall).
Defined.

Lemma delete_removes_exactly_one_witness :
  let r := deleteEvent (Num 2) four_events in
  r.1 = true
  ∧ length (getAllEvents r.2) = 3%nat
  ∧ idCounter (events r.2) = 5.
Proof.
  intros r.
  destruct (delete_removes_exactly_one Event (Num 2) _ four_events
              (keys_ok_run _ _ keys_ok_new) eq_refl)
    as (Hfound & _ & Hlen & _ & Hcounter & _).
  split; [exact Hfound|]. split; [exact Hlen | exact Hcounter].
Defined.

Lemma username_first_wins_witness :
  let r := createUser 5 second_ana (two_users "a" "b") in
  length (getAllUsers r.2) = 3%nat
  ∧ (λ x, prop x "id") <$> getUserByUsername "ana" r.2 = Some (VNum 2)
  ∧ prop r.1 "id" = VNum 3.
Proof.
  intros r.
  destruct (username_first_wins "ana" 5 second_ana (two_users "a" "b")
              (keys_ok_run _ _ keys_ok_new) eq_refl) as (Hall & _ & Holder & _).
  destruct (Holder _ eq_refl) as [Hfound _]. fold r in Hall, Hfound.
  split; [exact (f_equal length Hall)|].
  split; [by rewrite Hfound | reflexivity].
Defined.

Lemma reply_joins_its_topic_witness :
  let r := createForumReply 9 (reply_in 5 "third") three_replies in
  map (λ x, prop x "content") (getForumRepliesByTopic (Num 5) r.2) =
    [VStr "first"; VStr "second"; VStr "third"]
  ∧ getAll ForumTopic r.2 = [].
Proof.
  intros r.
  destruct (reply_joins_its_topic 5 9 (reply_in 5 "third") three_replies
              (keys_ok_run _ _ keys_ok_new) eq_refl) as (Hon & _ & _ & _ & Htopics).
  fold r in Hon, Htopics. split; [by rewrite Hon | exact Htopics].
Defined.

Lemma open_routes_only_read_witness :
  let w := mkWorld one_event [] in
  let a := handle sample_parse sample_date (Some member8) (GetById REvent "1x") w in
  status a.1 = 200 ∧ storage a.2 = one_event
  ∧ status (handle sample_parse sample_date None (GetById REvent "x1") w).1 = 404.
Proof.
  intros w a.
  destruct (open_routes_only_read sample_parse sample_date (Some member8)
              (GetById REvent "1x") w eq_refl) as (Hst & _ & _ & Hresp & _).
  destruct (open_routes_only_read sample_parse sample_date None
              (GetById REvent "x1") w eq_refl) as (_ & _ & _ & _ & Hnan).
  fold a in Hst, Hresp. split; [by rewrite Hresp|]. split; [exact Hst|].
  exact (Hnan eq_refl).
Defined.

Lemma post_owned_contract_witness :
  let w := mkWorld one_event [] in
  (post_owned sample_parse Event (Some member8) (service 7000) 50 w).1 =
    (post_owned sample_parse Event (Some member7) (service 7000) 50 w).1
  ∧ post_owned sample_parse Event (Some member8) (delete "title" (service 7000)) 50 w =
      (mkResponse 400 (invalid Event (VArr [VStr "title: Required"])), w)
  ∧ ∃ e, (post_owned sample_parse Event (Some member8) (service 7000) 50 w).1 =
           mkResponse 201 (JEntity (Some e))
       ∧ prop e "id" = VNum 2 ∧ prop e "createdBy" = VNum 7.
Proof.
  intros w.
  destruct (post_owned_contract sample_parse Event member7 (service 7000) 50 w)
    as (_ & Hok & Hany).
  destruct (post_owned_contract sample_parse Event member8
              (delete "title" (service 7000)) 50 w) as (Hbad & _ & _).
  destruct (Hok _ eq_refl (keys_ok_create Event 1000 (service 90000) _ keys_ok_new))
    as (e & He & Hid & _ & Howner & _).
  split; [by rewrite (Hany member8)|]. split; [exact (Hbad _ eq_refl)|].
  exists e. rewrite (Hany member8). split; [exact He|]. split; [exact Hid | exact Howner].
Defined.

Lemma refused_before_repository_witness :
  let w := mkWorld one_event [] in
  handle sample_parse sample_date None (DeleteOwned Event "1") w =
    (mkResponse 401 (JMessage "Unauthorized"), w)
  ∧ handle sample_parse sample_date None GetUsers w =
    (mkResponse 403 (JMessage "Forbidden"), w)
  ∧ handle sample_parse sample_date (Some member7) (PostSiteSetting (setting_body "a" "1") 0) w =
    (mkResponse 403 (JMessage "Forbidden"), w)
  ∧ handle sample_parse sample_date (Some admin1)
      (PostSiteSettingsBatch (VObj (setting_body "a" "1")) no_clock) w =
    (mkResponse 400 (JMessage "Request body must be an array"), w).
Proof.
  intros w.
  destruct (refused_before_repository sample_parse sample_date None
              (DeleteOwned Event "1") w) as (H401 & _).
  destruct (refused_before_repository sample_parse sample_date None GetUsers w)
    as (_ & H403 & _).
  destruct (refused_before_repository sample_parse sample_date (Some member7)
              (PostSiteSetting (setting_body "a" "1") 0) w) as (_ & H403' & _).
  destruct (refused_before_repository sample_parse sample_date (Some admin1)
              (PostSiteSettingsBatch (VObj (setting_body "a" "1")) no_clock) w)
    as (_ & _ & _ & H400).
  split; [exact (H401 eq_refl eq_refl)|]. split; [exact (H403 eq_refl eq_refl)|].
  split; [exact (H403' eq_refl eq_refl)|].
  apply (H400 _ _ eq_refl eq_refl). intros items. discriminate.
Defined.

Lemma delete_by_owner_or_admin_witness :
  let w := mkWorld four_events [] in
  let a := delete_owned Event (Some admin1) "3" w in
  a.1 = mkResponse 200 (deleted Event)
  ∧ (delete_owned Event (Some admin1) "3" a.2).1 = mkResponse 404 (not_found Event)
  ∧ (delete_owned Event None "3" a.2).1 = mkResponse 401 (JMessage "Unauthorized")
  ∧ (patch_owned Event None "3" takeover 0 a.2).1 = mkResponse 401 (JMessage "Unauthorized")
  ∧ storage (patch_owned Event (Some member7) "3" takeover 0 a.2).2 = storage a.2
  ∧ is_Some (get Event (Num 4) (storage a.2)).
Proof.
  intros w a.
  destruct (delete_by_owner_or_admin Event admin1 _ "3" w eq_refl (or_intror eq_refl))
    as (Hresp & _ & _ & Hothers & Hagain & Hpatch).
  fold a in Hresp, Hothers, Hagain, Hpatch.
  split; [exact Hresp|]. split; [exact (proj1 (Hagain (Some admin1)))|].
  split; [exact (proj1 (Hagain None))|].
  split; [exact (proj1 (Hpatch None takeover 0))|].
  split; [exact (proj2 (Hpatch (Some member7) takeover 0))|].
  rewrite (Hothers Event (Num 4)); [by eexists | right; discriminate].
Defined.

Lemma patch_user_keeps_password_witness :
  let w := mkWorld (two_users "hash1" "hash7") [] in
  let b : obj := {[ "role" := VStr "admin"; "password" := VStr "stolen" ]} in
  let a := patch_user (Some admin1) "2" b 0 w in
  ∃ y, get User (Num 2) (storage a.2) = Some y
    ∧ y !! "password" = Some (VStr "hash7")
    ∧ y !! "role" = Some (VStr "admin").
Proof.
  intros w b a.
  destruct (patch_user_keeps_password admin1 "2" b 0 w eq_refl) as (_ & Hfound & _).
  destruct (Hfound _ eq_refl) as (y & Hy & Hpw & Hset & _).
  fold a in Hy. exists y. split; [exact Hy|]. split; [exact Hpw|].
  apply Hset; [discriminate | reflexivity].
Defined.

Lemma setting_post_then_get_witness :
  let a := post_site_setting (Some admin1) (setting_body "siteName" "Igreja") 20 named_site in
  ∃ s, (get_site_setting "siteName" a.2).1 = mkResponse 200 (JEntity (Some s))
    ∧ prop s "value" = VStr "Igreja"
    ∧ status a.1 = 200.
Proof.
  intros a.
  assert (settings_ok (storage named_site)) as Hok
    by apply post_site_setting_ok, settings_ok_new.
  destruct (setting_post_then_get admin1 "siteName" (setting_body "siteName" "Igreja") 20
              named_site Hok eq_refl eq_refl ltac:(discriminate))
    as ((s & Hget & Hresp & _ & Hv & _) & _).
  fold a in Hget, Hresp. exists s. split; [exact Hget|]. split; [exact Hv|].
  by rewrite Hresp.
Defined.

Lemma batch_last_value_wins_witness :
  let items := [setting_item "a" "1"; setting_item "siteName" "X"; setting_item "a" "2"] in
  let st' := storage (post_site_settings_batch (Some admin1) (VArr items) no_clock
                        named_site).2 in
  (∃ s, getSiteSetting (VStr "a") st' = Some s ∧ prop s "value" = VStr "2")
  ∧ (∃ s, getSiteSetting (VStr "siteName") st' = Some s
        ∧ prop s "value" = VStr "X" ∧ prop s "id" = VNum 1)
  ∧ getSiteSetting (VStr "b") st' = None.
Proof.
  intros items st'.
  assert (settings_ok (storage named_site)) as Hok
    by apply post_site_setting_ok, settings_ok_new.
  assert (Forall (λ item, nullish item = false) items) as Hitems
    by (repeat constructor).
  destruct (batch_last_value_wins admin1 items no_clock named_site (VStr "a")
              Hok eq_refl Hitems) as (_ & s & Hs & Hv & _).
  destruct (batch_last_value_wins admin1 items no_clock named_site (VStr "siteName")
              Hok eq_refl Hitems) as (_ & s1 & Hs1 & Hv1 & _ & Hid1).
  destruct (batch_last_value_wins admin1 items no_clock named_site (VStr "b")
              Hok eq_refl Hitems) as (_ & Hb).
  fold st' in Hs, Hs1, Hb. split_and!.
  - exists s. split; [exact Hs | exact Hv].
  - exists s1. split; [exact Hs1|]. split; [exact Hv1|]. exact (Hid1 _ eq_refl).
  - exact Hb.
Defined.

Lemma setting_keeps_its_id_witness :
  let rs := [(Some admin1, PostSiteSetting (setting_body "logoUrl" "/logo.png") 30);
             (Some member7, DeleteOwned Event "1");
             (Some admin1, PostSiteSettingsBatch (VArr [setting_item "siteName" "Nova"]) no_clock)] in
  ∃ x, getSiteSetting (VStr "siteName")
         (storage (handle_all sample_parse sample_date rs named_site)) = Some x
    ∧ prop x "id" = VNum 1.
Proof.
  intros rs.
  assert (settings_ok (storage named_site)) as Hok
    by apply post_site_setting_ok, settings_ok_new.
  destruct (setting_keeps_its_id sample_parse sample_date rs named_site
              (VStr "siteName") _ Hok eq_refl) as (x & Hx & Hid & _).
  exists x. split; [exact Hx | exact Hid].
Defined.

Lemma posted_setting_is_shown_witness :
  let a := post_site_setting (Some admin1) (setting_body "churchPhone" "(86) 3323-1111") 20
             named_site in
  ∃ settings, (get_site_settings a.2).1 = mkResponse 200 (JArray settings)
    ∧ setting_or (Some settings) "churchPhone" (VStr "(86) 3323-0000") =
        VStr "(86) 3323-1111"
    ∧ setting_or (Some settings) "churchEmail" (VStr "contato@ibiparnaiba.org") =
        VStr "contato@ibiparnaiba.org".
Proof.
  intros a.
  assert (settings_ok (storage named_site)) as Hok
    by apply post_site_setting_ok, settings_ok_new.
  destruct (posted_setting_is_shown admin1 "churchPhone"
              (setting_body "churchPhone" "(86) 3323-1111") 20 (VStr "(86) 3323-0000")
              named_site Hok eq_refl eq_refl ltac:(discriminate))
    as (settings & Hserved & Hshown & _).
  fold a in Hserved. exists settings. split; [exact Hserved|]. split; [exact Hshown|].
  injection Hserved as <-. reflexivity.
Defined.

Lemma avatar_group_accounts_for_all_witness :
  avatar_group ["a"; "b"; "c"; "d"; "e"; "f"] None = (["a"; "b"; "c"; "d"], Some (Num 2))
  ∧ avatar_group ["a"; "b"] (Some (Num 3)) = (["a"; "b"], None).
Proof.
  destruct (avatar_group_accounts_for_all ["a"; "b"; "c"; "d"; "e"; "f"] None 4
              eq_refl ltac:(lia)) as (H1 & _ & H2 & _).
  destruct (avatar_group_accounts_for_all ["a"; "b"] (Some (Num 3)) 3
              eq_refl ltac:(lia)) as (H3 & _ & H4 & _).
  split; apply injective_projections; assumption.
Defined.
